(** * Neural Control Core of the NCA agent (hardware_export/nca_agent.c)

    A shallow embedding of the four per-tick operations of the agent
    ([nca_forward], [nca_act], [nca_rssi], [nca_get_neighbor_count]) and the
    properties the specification states about them.

    The C code computes on [float].  The program is written once, over an
    interface [CFloat] of the float operations it uses, and read at two
    instances:
    - [R_float]: exact real arithmetic (no rounding, no overflow, no NaN);
      the universally quantified numeric properties are proved there;
    - [b32_float]: IEEE-754 binary32 with round-to-nearest-even, from the
      standard library's executable [SpecFloat] model; the concrete values
      the test-suite asserts are computed there.
    [tanhf] and [expf] come through a second interface, [CLibm]. *)

From Stdlib Require Import ZArith List Bool Lia Reals Lra.
From Stdlib Require Import SpecFloat Ascii.
From stdpp Require Import base list strings.

Set Default Proof Using "Type".

(** ** The float operations used by the source *)

Class CFloat (F : Type) : Type := {
  f_zero : F;                 (* 0.0f *)
  f_one : F;                  (* 1.0f *)
  f_half : F;                 (* 0.5f *)
  f_centi : F;                (* 0.01f *)
  f_add : F -> F -> F;        (* a + b *)
  f_sub : F -> F -> F;        (* a - b *)
  f_mul : F -> F -> F;        (* a * b *)
  f_div : F -> F -> F;        (* a / b *)
  f_neg : F -> F;             (* -a *)
  f_lt : F -> F -> bool;      (* a < b *)
  f_sqrt : F -> F;            (* sqrtf *)
  f_of_int : Z -> F           (* (float) n *)
}.

(** The two transcendental functions of [math.h] that the source calls. *)
Class CLibm (F : Type) : Type := {
  f_tanh : F -> F;            (* tanhf *)
  f_exp : F -> F              (* expf *)
}.

(** [a > b] is [b < a], also on NaN (both are false). *)
Definition f_gt {F} {HF : CFloat F} (a b : F) : bool := f_lt b a.

Declare Scope cfloat_scope.
Delimit Scope cfloat_scope with fl.
Infix "+" := f_add : cfloat_scope.
Infix "-" := f_sub : cfloat_scope.
Infix "*" := f_mul : cfloat_scope.
Infix "/" := f_div : cfloat_scope.
Notation "- x" := (f_neg x) : cfloat_scope.
Infix "<?" := f_lt : cfloat_scope.
Infix ">?" := f_gt : cfloat_scope.

(** *** Exact real arithmetic *)

Definition Rltb (a b : R) : bool := if Rlt_dec a b then true else false.
Arguments Rltb : simpl never.

#[export] Instance R_float : CFloat R := {|
  f_zero := 0%R;
  f_one := 1%R;
  f_half := (1 / 2)%R;
  f_centi := (1 / 100)%R;
  f_add := Rplus;
  f_sub := Rminus;
  f_mul := Rmult;
  f_div := Rdiv;
  f_neg := Ropp;
  f_lt := Rltb;
  f_sqrt := sqrt;
  f_of_int := IZR
|}.

#[export] Instance R_libm : CLibm R := {|
  f_tanh := tanh;
  f_exp := exp
|}.

(** *** IEEE-754 binary32 *)

Module B32.
Definition prec : Z := 24.
Definition emax : Z := 128.

Definition of_Z (n : Z) : spec_float := binary_normalize prec emax n 0 false.
Definition add := SFadd prec emax.
Definition sub := SFsub prec emax.
Definition mul := SFmul prec emax.
Definition div := SFdiv prec emax.
Definition sqrt := SFsqrt prec emax.

(** Decimal constants of the source are rounded to the nearest float, which
    is what the quotient of two exact floats gives. *)
Definition half : spec_float := Eval vm_compute in div (of_Z 1) (of_Z 2).
Definition centi : spec_float := Eval vm_compute in div (of_Z 1) (of_Z 100).

(** Neither an infinity nor NaN. *)
Definition finite (x : spec_float) : bool :=
  match x with
  | S754_zero _ | S754_finite _ _ _ => true
  | _ => false
  end.

Definition is_zero (x : spec_float) : bool :=
  match x with
  | S754_zero _ => true
  | _ => false
  end.

(** The same float, or two zeros of any signs: what C's [==] makes of two
    floats, except that here NaN is the same as NaN. *)
Definition same (x y : spec_float) : Prop :=
  x = y \/ (is_zero x = true /\ is_zero y = true).

(** [-1.0f <= x && x <= 1.0f] *)
Definition in_unit (x : spec_float) : bool :=
  SFleb (of_Z (-1)) x && SFleb x (of_Z 1).

(** [(float)r / RAND_MAX - 0.5f] *)
Definition centred (rand_max r : Z) : spec_float :=
  sub (div (of_Z r) (of_Z rand_max)) half.
End B32.

#[export] Instance b32_float : CFloat spec_float := {|
  f_zero := S754_zero false;
  f_one := B32.of_Z 1;
  f_half := B32.half;
  f_centi := B32.centi;
  f_add := B32.add;
  f_sub := B32.sub;
  f_mul := B32.mul;
  f_div := B32.div;
  f_neg := SFopp;
  f_lt := SFltb;
  f_sqrt := B32.sqrt;
  f_of_int := B32.of_Z
|}.

(** The C library's [tanhf] and [expf] are not part of the repository; in
    binary32 they are taken as arguments. *)
Definition b32_libm (tanhf expf : spec_float -> spec_float) : CLibm spec_float := {|
  f_tanh := tanhf;
  f_exp := expf
|}.

(** ** ProximityModel *)

Section Proximity.
Context {F : Type} {HF : CFloat F}.
Local Open Scope cfloat_scope.

(** [float nca_rssi(float distance, float max_distance)] *)
Definition nca_rssi (distance max_distance : F) : F :=
  if distance >? max_distance then f_zero
  else f_one - (distance / max_distance).

(** The loop of [nca_get_neighbor_count], entered at index [i] with [n]
    iterations left.  [distances[i]] outside the array the caller passed is
    undefined behaviour in C: [None]. *)
Fixpoint count_loop (distances : list F) (range_threshold : F)
    (n i : nat) (count : Z) : option Z :=
  match n with
  | O => Some count
  | S n' =>
      match distances !! i with
      | None => None
      | Some d =>
          count_loop distances range_threshold n' (S i)
            (if d <? range_threshold then (count + 1)%Z else count)
      end
  end.

(** [int nca_get_neighbor_count(float distances[], int max_neighbors,
    float range_threshold)].  [count] never exceeds [max_neighbors], so the
    [int] cannot wrap. *)
Definition nca_get_neighbor_count (distances : list F) (max_neighbors : Z)
    (range_threshold : F) : option Z :=
  count_loop distances range_threshold (Z.to_nat max_neighbors) 0 0.
End Proximity.

(** ** The machine state the Core runs in *)

(** [nca_params_evo_agent.h] is not part of the repository snapshot: the three
    size macros and the four constant tables it declares are parameters. *)
Record NetworkParameters (F : Type) : Type := {
  NCA_INPUT_SIZE : nat;
  NCA_HIDDEN_SIZE : nat;
  NCA_OUTPUT_SIZE : nat;
  w1 : nat -> nat -> F;       (* w1[i][j] *)
  b1 : nat -> F;              (* b1[j] *)
  w2 : nat -> nat -> F;       (* w2[i][j] *)
  b2 : nat -> F               (* b2[j] *)
}.
Arguments NCA_INPUT_SIZE {F} _.
Arguments NCA_HIDDEN_SIZE {F} _.
Arguments NCA_OUTPUT_SIZE {F} _.
Arguments w1 {F} _ _ _.
Arguments b1 {F} _ _.
Arguments w2 {F} _ _ _.
Arguments b2 {F} _ _.

(** [default_config], declared in the same header. *)
Record AgentConfig (F : Type) : Type := {
  noise : F;
  speed : F
}.
Arguments noise {F} _.
Arguments speed {F} _.

(** [rand()] and [RAND_MAX] of [stdlib.h]: a generator state, and the step
    that returns the next sample together with the next state. *)
Record RandomSource : Type := {
  RAND_MAX : Z;
  rng_state : Type;
  rand_step : rng_state -> Z * rng_state
}.

(** State passing with failure: [None] is an access outside an array. *)
Definition M (St A : Type) : Type := St -> option (A * St).

Definition ret {St A} (a : A) : M St A := fun s => Some (a, s).
Definition fail {St A} : M St A := fun _ => None.
Definition bind {St A B} (m : M St A) (k : A -> M St B) : M St B :=
  fun s => match m s with
           | Some (a, s') => k a s'
           | None => None
           end.

Notation "x <- m ;; k" := (bind m (fun x => k))
  (at level 100, m at next level, right associativity).
Notation "m ;;; k" := (bind m (fun _ => k))
  (at level 100, right associativity).

(** [for (int i = i0; i < i0 + n; i++) acc = body(i, acc);] *)
Fixpoint for_acc {St A} (n i : nat) (body : nat -> A -> M St A) (acc : A) : M St A :=
  match n with
  | O => ret acc
  | S n' => acc' <- body i acc ;; for_acc n' (S i) body acc'
  end.

(** [for (int i = i0; i < i0 + n; i++) body(i);] *)
Definition for_loop {St} (n i : nat) (body : nat -> M St unit) : M St unit :=
  for_acc n i (fun j _ => body j) tt.

Section Machine.
Context {F : Type} {HF : CFloat F} {HL : CLibm F}.
Variable net : NetworkParameters F.
Variable default_config : AgentConfig F.
Variable libc : RandomSource.
Local Open Scope cfloat_scope.

(** The file-scope buffers [hidden] and [output_buf] and the generator
    behind [rand()].  [rand_calls] is a ghost counter of the calls to
    [rand()]; no computation reads it. *)
Record State : Type := {
  hidden : list F;
  output_buf : list F;
  rng : rng_state libc;
  rand_calls : nat
}.

Definition set_hidden (l : list F) (s : State) : State :=
  {| hidden := l; output_buf := output_buf s; rng := rng s;
     rand_calls := rand_calls s |}.

Definition set_output_buf (l : list F) (s : State) : State :=
  {| hidden := hidden s; output_buf := l; rng := rng s;
     rand_calls := rand_calls s |}.

(** The static arrays have their declared sizes. *)
Definition wf_state (s : State) : Prop :=
  length (hidden s) = NCA_HIDDEN_SIZE net /\
  length (output_buf s) = NCA_OUTPUT_SIZE net.

Abbreviation M := (M State).

(** [a[i]] for an array held by the caller or on the stack. *)
Definition load (a : list F) (i : nat) : M F :=
  match a !! i with
  | Some v => ret v
  | None => fail
  end.

(** [a[i] = v] for such an array: the updated array. *)
Definition store (a : list F) (i : nat) (v : F) : M (list F) :=
  if (i <? length a)%nat then ret (<[i:=v]> a) else fail.

Definition hidden_load (i : nat) : M F := fun s => load (hidden s) i s.
Definition output_buf_load (i : nat) : M F := fun s => load (output_buf s) i s.

Definition hidden_store (j : nat) (v : F) : M unit :=
  fun s => match store (hidden s) j v s with
           | Some (l, s') => Some (tt, set_hidden l s')
           | None => None
           end.

Definition output_buf_store (j : nat) (v : F) : M unit :=
  fun s => match store (output_buf s) j v s with
           | Some (l, s') => Some (tt, set_output_buf l s')
           | None => None
           end.

(** [rand()] *)
Definition rand : M Z :=
  fun s => let (r, g) := rand_step libc (rng s) in
           Some (r, {| hidden := hidden s; output_buf := output_buf s;
                       rng := g; rand_calls := S (rand_calls s) |}).

(** ** InferenceEngine *)

(** [void nca_forward(float input[], float output[])]: the caller's
    [output] array is passed in and its final contents returned. *)
Definition nca_forward (input output : list F) : M (list F) :=
  for_loop (NCA_HIDDEN_SIZE net) 0 (fun j =>
    sum <- for_acc (NCA_INPUT_SIZE net) 0 (fun i sum =>
             x <- load input i ;;
             ret (sum + x * w1 net i j)) (b1 net j) ;;
    hidden_store j (f_tanh sum)) ;;;
  for_loop (NCA_OUTPUT_SIZE net) 0 (fun j =>
    sum <- for_acc (NCA_HIDDEN_SIZE net) 0 (fun i sum =>
             h <- hidden_load i ;;
             ret (sum + h * w2 net i j)) (b2 net j) ;;
    output_buf_store j (f_tanh sum)) ;;;
  for_acc (NCA_OUTPUT_SIZE net) 0 (fun i output =>
    v <- output_buf_load i ;;
    store output i v) output.

(** ** ActionDecoder *)

(** A local array declared without initialiser.  Its contents are
    indeterminate in C; [nca_forward] overwrites every cell before
    [nca_act] reads any (see [nca_forward_correct]). *)
Definition uninit (n : nat) : list F := replicate n f_zero.

(** The locals of [nca_act] when it returns. *)
Record ActLocals : Type := {
  l_noise_scale : F;
  l_dx0 : F;            (* [*dx] before the clamp *)
  l_dy0 : F;            (* [*dy] before the clamp *)
  l_magnitude : F;
  l_dx : F;             (* [*dx] on return *)
  l_dy : F              (* [*dy] on return *)
}.

(** The body of [nca_act].  Line 51 of the source names the third
    parameter [float] instead of [dy]; the prototype on line 13 and the
    body use [dy], which is what is modelled. *)
Definition nca_act_body (input : list F) : M ActLocals :=
  output <- nca_forward input (uninit (NCA_OUTPUT_SIZE net)) ;;
  let noise_scale :=
    noise default_config * f_exp ((- noise default_config) * f_centi) in
  o0 <- load output 0 ;;
  r0 <- rand ;;
  let dx := o0 * speed default_config
            + (f_of_int r0 / f_of_int (RAND_MAX libc) - f_half) * noise_scale in
  o1 <- load output 1 ;;
  r1 <- rand ;;
  let dy := o1 * speed default_config
            + (f_of_int r1 / f_of_int (RAND_MAX libc) - f_half) * noise_scale in
  let max_speed := speed default_config in
  let magnitude := f_sqrt (dx * dx + dy * dy) in
  if magnitude >? max_speed then
    ret {| l_noise_scale := noise_scale; l_dx0 := dx; l_dy0 := dy;
           l_magnitude := magnitude;
           l_dx := dx / magnitude * max_speed;
           l_dy := dy / magnitude * max_speed |}
  else
    ret {| l_noise_scale := noise_scale; l_dx0 := dx; l_dy0 := dy;
           l_magnitude := magnitude; l_dx := dx; l_dy := dy |}.

(** [void nca_act(float input[], float *dx, float *dy)]: the two values
    written through the pointers. *)
Definition nca_act (input : list F) : M (F * F) :=
  l <- nca_act_body input ;;
  ret (l_dx l, l_dy l).

(** ** What the operations compute, as functions of their inputs *)

(** The array [l] after [l[j] = g(j)] for [j = i, ..., i + n - 1]. *)
Definition fill (g : nat -> F) (i n : nat) (l : list F) : list F :=
  fold_left (fun l j => <[j:=g j]> l) (seq i n) l.

(** [b + t(0) + ... + t(n-1)], summed from the left as the loops do. *)
Definition sum_from (b : F) (t : nat -> F) (n : nat) : F :=
  fold_left (fun acc i => acc + t i) (seq 0 n) b.

(** Section 4.1 of the specification:
    [hidden[j] = tanh(bias1[j] + sum_i input[i] * W1[i][j])] and
    [output[k] = tanh(bias2[k] + sum_j hidden[j] * W2[j][k])]. *)
Definition hidden_val (input : list F) (j : nat) : F :=
  f_tanh (sum_from (b1 net j) (fun i => nth i input f_zero * w1 net i j)
            (NCA_INPUT_SIZE net)).

Definition output_val (input : list F) (k : nat) : F :=
  f_tanh (sum_from (b2 net k) (fun i => hidden_val input i * w2 net i k)
            (NCA_HIDDEN_SIZE net)).

Definition forward (input : list F) : list F :=
  map (output_val input) (seq 0 (NCA_OUTPUT_SIZE net)).

(** The state a call of [nca_forward] on [input] leaves behind. *)
Definition after_forward (input : list F) (s : State) : State :=
  set_output_buf (forward input)
    (set_hidden (map (hidden_val input) (seq 0 (NCA_HIDDEN_SIZE net))) s).

(** The state after [k] further calls of [rand()]. *)
Fixpoint after_rand (k : nat) (s : State) : State :=
  match k with
  | O => s
  | S k' =>
      after_rand k'
        {| hidden := hidden s; output_buf := output_buf s;
           rng := snd (rand_step libc (rng s));
           rand_calls := S (rand_calls s) |}
  end.

(** Section 4.2 of the specification, steps 2 to 4: the motor command as a
    function of the two network outputs and the two samples. *)
Definition decide_noise_scale : F :=
  noise default_config * f_exp ((- noise default_config) * f_centi).

Definition decide_axis (o : F) (r : Z) : F :=
  o * speed default_config
  + (f_of_int r / f_of_int (RAND_MAX libc) - f_half) * decide_noise_scale.

Definition decide_locals (o0 o1 : F) (r0 r1 : Z) : ActLocals :=
  let dx := decide_axis o0 r0 in
  let dy := decide_axis o1 r1 in
  let magnitude := f_sqrt (dx * dx + dy * dy) in
  let clamp := magnitude >? speed default_config in
  {| l_noise_scale := decide_noise_scale; l_dx0 := dx; l_dy0 := dy;
     l_magnitude := magnitude;
     l_dx := if clamp then dx / magnitude * speed default_config else dx;
     l_dy := if clamp then dy / magnitude * speed default_config else dy |}.

(** ** A run of the control loop *)

(** One call of [nca_act] per sensory vector, in order, on the same
    machine; the locals of every call are collected. *)
Fixpoint run_ticks (inputs : list (list F)) : M (list ActLocals) :=
  match inputs with
  | [] => ret []
  | input :: rest =>
      l <- nca_act_body input ;;
      ls <- run_ticks rest ;;
      ret (l :: ls)
  end.
End Machine.

Arguments State F libc : clear implicits.
Arguments Build_State {F libc} _ _ _ _.
Arguments hidden {F libc} s.
Arguments output_buf {F libc} s.
Arguments rng {F libc} s.
Arguments rand_calls {F libc} s.
Arguments set_hidden {F libc} l s.
Arguments set_output_buf {F libc} l s.
Arguments wf_state {F} net {libc} s.
Arguments ActLocals F : clear implicits.
Arguments l_noise_scale {F} _.
Arguments l_dx0 {F} _.
Arguments l_dy0 {F} _.
Arguments l_magnitude {F} _.
Arguments l_dx {F} _.
Arguments l_dy {F} _.
Arguments rand {F libc} s.
Arguments load {F libc} a i s.
Arguments store {F libc} a i v s.
Arguments hidden_load {F libc} i s.
Arguments output_buf_load {F libc} i s.
Arguments hidden_store {F libc} j v s.
Arguments output_buf_store {F libc} j v s.
Arguments after_rand {F libc} k s.
Arguments fill {F} g i n l.

(** ** A small agent to run the model on *)

Module Demo.
(** A 2-3-2 network over the reals. *)
Definition net : NetworkParameters R := {|
  NCA_INPUT_SIZE := 2;
  NCA_HIDDEN_SIZE := 3;
  NCA_OUTPUT_SIZE := 2;
  w1 := fun i j => if Nat.eqb i j then 1%R else (1 / 2)%R;
  b1 := fun _ => 0%R;
  w2 := fun i j => if Nat.eqb i j then (-1)%R else (1 / 4)%R;
  b2 := fun _ => (1 / 10)%R
|}.

Definition config : AgentConfig R := {| noise := (1 / 10)%R; speed := 1%R |}.

(** The same agent with exploration switched off. *)
Definition quiet : AgentConfig R := {| noise := 0%R; speed := 1%R |}.

(** The sample generator of the C standard. *)
Definition libc : RandomSource := {|
  RAND_MAX := 32767;
  rng_state := Z;
  rand_step := fun next =>
    let next' := ((next * 1103515245 + 12345) mod 4294967296)%Z in
    ((next' / 65536) mod 32768, next')%Z
|}.

Definition boot (seed : Z) : State R libc :=
  Build_State (libc := libc) [0; 0; 0]%R [0; 0]%R seed 0.

Definition input : list R := [1; -2]%R.
End Demo.

(** * Properties *)

Lemma wf_demo_boot (seed : Z) : wf_state Demo.net (Demo.boot seed).
Proof. split; reflexivity. Qed.

(** ** Arrays filled by a counting loop *)

Section Fill.
Context {F : Type}.
Implicit Types (g : nat -> F) (l : list F).

Lemma fill_S g i n l : fill g i (S n) l = fill g (S i) n (<[i:=g i]> l).
Proof. reflexivity. Qed.

Lemma length_fill g n : forall i l, length (fill g i n l) = length l.
Proof.
  induction n as [|n IH]; intros i l; [reflexivity|].
  rewrite fill_S, IH. apply length_insert.
Qed.

Lemma fill_lookup_lt g n : forall i l k,
  k < i -> fill g i n l !! k = l !! k.
Proof.
  induction n as [|n IH]; intros i l k Hk; [reflexivity|].
  rewrite fill_S, IH by lia. apply list_lookup_insert_ne. lia.
Qed.

Lemma fill_lookup_in g n : forall i l k,
  i <= k < i + n -> k < length l -> fill g i n l !! k = Some (g k).
Proof.
  induction n as [|n IH]; intros i l k Hk Hl; [lia|].
  rewrite fill_S. destruct (decide (k = i)) as [->|Hne].
  - rewrite fill_lookup_lt by lia. apply list_lookup_insert_eq. exact Hl.
  - apply IH; [lia|]. rewrite length_insert. exact Hl.
Qed.

(** A loop over the whole array leaves no old cell behind. *)
Lemma fill_all g l : fill g 0 (length l) l = map g (seq 0 (length l)).
Proof.
  apply list_eq. intros k.
  destruct (decide (k < length l)) as [Hk|Hk].
  - rewrite fill_lookup_in by lia.
    rewrite list_lookup_fmap, lookup_seq_lt by exact Hk. reflexivity.
  - rewrite !lookup_ge_None_2; [reflexivity| |].
    + rewrite length_map, length_seq. lia.
    + rewrite length_fill. lia.
Qed.
End Fill.

(** ** The loops of the source *)

Section MachineFacts.
Context {F : Type} {HF : CFloat F} {HL : CLibm F}.
Variable net : NetworkParameters F.
Variable default_config : AgentConfig F.
Variable libc : RandomSource.
Local Open Scope cfloat_scope.
Implicit Types (s : State F libc) (input output : list F).

Lemma load_in_range (a : list F) i s :
  i < length a -> load a i s = Some (nth i a f_zero, s).
Proof.
  intros Hi. unfold load.
  destruct (a !! i) as [v|] eqn:E.
  - rewrite (nth_lookup_Some _ _ _ _ E). reflexivity.
  - apply lookup_ge_None_1 in E. lia.
Qed.

Lemma store_in_range (a : list F) i v s :
  i < length a -> store a i v s = Some (<[i:=v]> a, s).
Proof.
  intros Hi. unfold store.
  destruct (Nat.ltb_spec i (length a)); [reflexivity|lia].
Qed.

(** The inner loops: a sum accumulated over reads that leave the state
    alone. *)
Lemma for_acc_sum (rd : nat -> M (State F libc) F) (v w : nat -> F) s n :
  forall i b,
    (forall k, i <= k < i + n -> rd k s = Some (v k, s)) ->
    for_acc n i (fun k sum => x <- rd k ;; ret (sum + x * w k)) b s
    = Some (fold_left (fun acc k => acc + v k * w k) (seq i n) b, s).
Proof.
  induction n as [|n IH]; intros i b Hrd; [reflexivity|].
  cbn [for_acc seq fold_left]. unfold bind at 1. unfold bind at 1.
  rewrite Hrd by lia. unfold ret at 1.
  apply IH. intros k Hk. apply Hrd. lia.
Qed.

Lemma set_hidden_id s : set_hidden (hidden s) s = s.
Proof. destruct s; reflexivity. Qed.

Lemma set_output_buf_id s : set_output_buf (output_buf s) s = s.
Proof. destruct s; reflexivity. Qed.

(** The first outer loop: [hidden[j] = tanhf(sum)] for each [j]. *)
Lemma for_loop_hidden (comp : nat -> M (State F libc) F) (c : nat -> F) n :
  forall i s,
    (forall k s', comp k s' = Some (c k, s')) ->
    i + n <= length (hidden s) ->
    for_loop n i (fun j => sum <- comp j ;; hidden_store j (f_tanh sum)) s
    = Some (tt, set_hidden (fill (fun j => f_tanh (c j)) i n (hidden s)) s).
Proof.
  induction n as [|n IH]; intros i s Hc Hlen.
  - cbn. unfold ret. now rewrite set_hidden_id.
  - unfold for_loop. cbn [for_acc]. unfold bind at 1. unfold bind at 1.
    rewrite Hc. unfold hidden_store at 1.
    rewrite store_in_range by lia.
    fold (for_loop n (S i) (fun j => sum <- comp j ;; hidden_store j (f_tanh sum))).
    rewrite IH; [reflexivity|exact Hc|].
    cbn. rewrite length_insert. lia.
Qed.

(** The second outer loop: [output_buf[j] = tanhf(sum)], where the sum
    reads [hidden], which this loop does not write. *)
Lemma for_loop_output_buf (comp : nat -> M (State F libc) F) (c : nat -> F) n :
  forall i s,
    (forall k s', hidden s' = hidden s -> comp k s' = Some (c k, s')) ->
    i + n <= length (output_buf s) ->
    for_loop n i (fun j => sum <- comp j ;; output_buf_store j (f_tanh sum)) s
    = Some (tt, set_output_buf (fill (fun j => f_tanh (c j)) i n (output_buf s)) s).
Proof.
  induction n as [|n IH]; intros i s Hc Hlen.
  - cbn. unfold ret. now rewrite set_output_buf_id.
  - unfold for_loop. cbn [for_acc]. unfold bind at 1. unfold bind at 1.
    rewrite Hc by reflexivity. unfold output_buf_store at 1.
    rewrite store_in_range by lia.
    fold (for_loop n (S i) (fun j => sum <- comp j ;; output_buf_store j (f_tanh sum))).
    rewrite IH; [reflexivity| |].
    + intros k s' Hs'. apply Hc. exact Hs'.
    + cbn. rewrite length_insert. lia.
Qed.

(** The copy loop: [output[i] = output_buf[i]]. *)
Lemma for_acc_copy s n :
  forall i output,
    i + n <= length (output_buf s) ->
    i + n <= length output ->
    for_acc n i (fun i output => v <- output_buf_load i ;; store output i v)
      output s
    = Some (fill (fun k => nth k (output_buf s) f_zero) i n output, s).
Proof.
  induction n as [|n IH]; intros i output Hb Ho; [reflexivity|].
  cbn [for_acc]. unfold bind at 1. unfold bind at 1.
  unfold output_buf_load at 1. rewrite load_in_range by lia.
  rewrite store_in_range by lia.
  rewrite IH; [reflexivity|lia|]. rewrite length_insert. lia.
Qed.

(** ** [nca_forward] computes the two layers of section 4.1 *)

Lemma nca_forward_correct input output s :
  wf_state net s ->
  length input = NCA_INPUT_SIZE net ->
  length output = NCA_OUTPUT_SIZE net ->
  nca_forward net libc input output s
  = Some (forward net input, after_forward net libc input s).
Proof.
  intros [Hh Ho] Hin Hout. unfold nca_forward.
  unfold bind at 1.
  rewrite (for_loop_hidden _
    (fun j => sum_from (b1 net j) (fun i => nth i input f_zero * w1 net i j)
                (NCA_INPUT_SIZE net))); [|intros k s'|lia].
  2:{ apply (for_acc_sum (fun i => load input i)).
      intros i Hi. apply load_in_range. lia. }
  rewrite <- Hh, fill_all, Hh.
  fold (hidden_val net input).
  unfold bind at 1.
  rewrite (for_loop_output_buf _
    (fun k => sum_from (b2 net k) (fun i => hidden_val net input i * w2 net i k)
                (NCA_HIDDEN_SIZE net))); [|intros k s' Hs'|cbn; lia].
  2:{ apply (for_acc_sum (fun i => hidden_load i)).
      intros i Hi. unfold hidden_load. rewrite Hs'. cbn [hidden set_hidden].
      rewrite load_in_range by (rewrite length_map, length_seq; lia).
      rewrite (nth_indep _ _ (hidden_val net input 0))
        by (rewrite length_map, length_seq; lia).
      rewrite (map_nth (hidden_val net input)), seq_nth by lia.
      reflexivity. }
  cbn [output_buf set_hidden]. rewrite <- Ho, fill_all, Ho.
  fold (output_val net input). fold (forward net input).
  rewrite for_acc_copy;
    [|cbn; unfold forward; rewrite length_map, length_seq; lia|lia].
  cbn [output_buf set_output_buf].
  rewrite <- Hout at 1. rewrite fill_all, Hout.
  f_equal. f_equal.
  unfold forward. apply list_eq. intros k.
  rewrite !list_lookup_fmap.
  destruct (decide (k < NCA_OUTPUT_SIZE net)) as [Hk|Hk].
  - rewrite lookup_seq_lt by exact Hk. cbn.
    rewrite (nth_indep _ _ (output_val net input 0))
      by (rewrite length_map, length_seq; lia).
    rewrite (map_nth (output_val net input)), seq_nth by lia. reflexivity.
  - rewrite lookup_seq_ge by lia. reflexivity.
Qed.

Lemma wf_after_forward input s : wf_state net (after_forward net libc input s).
Proof.
  split; cbn; unfold forward; rewrite length_map, length_seq; reflexivity.
Qed.

Lemma wf_after_rand k : forall s, wf_state net s -> wf_state net (after_rand k s).
Proof. induction k as [|k IH]; intros s Hs; [exact Hs|]. apply IH, Hs. Qed.

Lemma rand_calls_after_rand k :
  forall s, rand_calls (after_rand k s) = (k + rand_calls s)%nat.
Proof.
  induction k as [|k IH]; intros s; [reflexivity|].
  cbn [after_rand]. rewrite IH. cbn. lia.
Qed.

Lemma rand_correct s :
  rand s = Some (fst (rand_step libc (rng s)), after_rand 1 s).
Proof.
  unfold rand. cbn [after_rand].
  destruct (rand_step libc (rng s)); reflexivity.
Qed.

Lemma forward_nth input k :
  k < NCA_OUTPUT_SIZE net ->
  nth k (forward net input) f_zero = output_val net input k.
Proof.
  intros Hk. unfold forward.
  rewrite (nth_indep _ _ (output_val net input 0))
    by (rewrite length_map, length_seq; lia).
  rewrite (map_nth (output_val net input)), seq_nth by lia. reflexivity.
Qed.

Lemma length_forward input : length (forward net input) = NCA_OUTPUT_SIZE net.
Proof. unfold forward. now rewrite length_map, length_seq. Qed.

(** ** [nca_act] runs the network, draws twice, and applies section 4.2 *)

Lemma nca_act_body_correct input s :
  wf_state net s ->
  length input = NCA_INPUT_SIZE net ->
  2 <= NCA_OUTPUT_SIZE net ->
  nca_act_body net default_config libc input s
  = Some (decide_locals default_config libc
            (output_val net input 0) (output_val net input 1)
            (fst (rand_step libc (rng s)))
            (fst (rand_step libc (snd (rand_step libc (rng s))))),
          after_rand 2 (after_forward net libc input s)).
Proof.
  intros Hs Hin Hout. unfold nca_act_body.
  unfold bind at 1.
  rewrite nca_forward_correct;
    [|exact Hs|exact Hin|unfold uninit; apply length_replicate].
  unfold bind at 1.
  rewrite load_in_range, forward_nth by (rewrite ?length_forward; lia).
  unfold bind at 1. rewrite rand_correct.
  unfold bind at 1.
  rewrite load_in_range, forward_nth by (rewrite ?length_forward; lia).
  unfold bind at 1. rewrite rand_correct.
  cbn [after_rand rng after_forward set_output_buf set_hidden hidden
       output_buf rand_calls].
  unfold decide_locals, decide_axis, decide_noise_scale.
  destruct (f_gt _ _); reflexivity.
Qed.

Lemma nca_act_correct input s :
  wf_state net s ->
  length input = NCA_INPUT_SIZE net ->
  2 <= NCA_OUTPUT_SIZE net ->
  nca_act net default_config libc input s
  = let l := decide_locals default_config libc
               (output_val net input 0) (output_val net input 1)
               (fst (rand_step libc (rng s)))
               (fst (rand_step libc (snd (rand_step libc (rng s))))) in
    Some ((l_dx l, l_dy l), after_rand 2 (after_forward net libc input s)).
Proof.
  intros Hs Hin Hout. unfold nca_act, bind.
  rewrite nca_act_body_correct by assumption. reflexivity.
Qed.

(** [nca_act] fails when the network has fewer than two outputs: it reads
    [output[0]] and [output[1]]. *)
Lemma nca_act_needs_two_outputs input s :
  wf_state net s ->
  length input = NCA_INPUT_SIZE net ->
  NCA_OUTPUT_SIZE net < 2 ->
  nca_act net default_config libc input s = None.
Proof.
  intros Hs Hin Hout. unfold nca_act, nca_act_body.
  unfold bind at 1. unfold bind at 1.
  rewrite nca_forward_correct;
    [|exact Hs|exact Hin|unfold uninit; apply length_replicate].
  pose proof (length_forward input) as Hlen.
  destruct (forward net input) as [|y0 [|y1 out]] eqn:E; cbn in Hlen.
  - reflexivity.
  - unfold bind at 1. cbn [load lookup list_lookup]. unfold ret at 1.
    unfold bind at 1. rewrite rand_correct. reflexivity.
  - lia.
Qed.
End MachineFacts.

(** ** Facts of the two arithmetics *)

Lemma Rltb_true (a b : R) : Rltb a b = true <-> (a < b)%R.
Proof. unfold Rltb. destruct (Rlt_dec a b); split; intros; try lra; discriminate. Qed.

Lemma Rltb_false (a b : R) : Rltb a b = false <-> (b <= a)%R.
Proof. unfold Rltb. destruct (Rlt_dec a b); split; intros; try lra; discriminate. Qed.

Lemma Rltb_irrefl (a : R) : Rltb a a = false.
Proof. apply Rltb_false. lra. Qed.

(** Decides a comparison of two real constants. *)
Ltac Rltb_const :=
  repeat match goal with
  | |- context [Rltb ?a ?b] =>
      first [ rewrite (proj2 (Rltb_true a b)) by lra
            | rewrite (proj2 (Rltb_false a b)) by lra ]
  end.

(** No float is less than itself; NaN is less than nothing. *)
Lemma SFltb_irrefl (x : spec_float) : SFltb x x = false.
Proof.
  unfold SFltb, SFcompare.
  destruct x as [s|s| |s m e]; try destruct s; try reflexivity;
    rewrite Z.compare_refl, Pos.compare_cont_refl; reflexivity.
Qed.

(** ** ProximityModel: neighbour count *)

Section ProximityFacts.
Context {F : Type} {HF : CFloat F}.

(** [n] iterations from index [i] add the number of entries among
    [distances[i .. i+n-1]] that compare below the threshold. *)
Lemma count_loop_spec (distances : list F) (thr : F) n :
  forall i count,
    i + n <= length distances ->
    count_loop distances thr n i count
    = Some (count + Z.of_nat (length (List.filter (fun d => f_lt d thr)
                                        (take n (drop i distances)))))%Z.
Proof.
  induction n as [|n IH]; intros i count Hlen.
  - rewrite take_0. cbn. f_equal. lia.
  - cbn [count_loop].
    destruct (distances !! i) as [d|] eqn:E.
    2:{ apply lookup_ge_None_1 in E. lia. }
    rewrite IH by lia.
    rewrite (drop_S _ _ _ E). cbn [take List.filter].
    destruct (f_lt d thr); cbn [length]; f_equal; lia.
Qed.

(** Reading past the end of the caller's array is undefined. *)
Lemma count_loop_out_of_bounds (distances : list F) (thr : F) n :
  forall i count,
    length distances < i + n ->
    i <= length distances ->
    count_loop distances thr n i count = None.
Proof.
  induction n as [|n IH]; intros i count Hlen Hi; [lia|].
  cbn [count_loop].
  destruct (distances !! i) as [d|] eqn:E; [|reflexivity].
  apply lookup_lt_Some in E. apply IH; lia.
Qed.

Lemma nca_get_neighbor_count_whole (distances : list F) (thr : F) :
  nca_get_neighbor_count distances (Z.of_nat (length distances)) thr
  = Some (Z.of_nat (length (List.filter (fun d => f_lt d thr) distances))).
Proof.
  unfold nca_get_neighbor_count. rewrite Nat2Z.id.
  rewrite count_loop_spec by lia.
  rewrite drop_0, firstn_all. reflexivity.
Qed.
End ProximityFacts.

(** Unrolls the counting loop over a list given in full. *)
Ltac count_unroll :=
  unfold nca_get_neighbor_count;
  match goal with
  | |- context [Z.to_nat ?z] =>
      let n := eval vm_compute in (Z.to_nat z) in
      change (Z.to_nat z) with n
  end;
  cbn [count_loop lookup list_lookup f_lt R_float b32_float].

Section Claims_Proximity.

(** C5.  The neighbour count over a sequence of distance samples is the
    number of entries that compare strictly below the threshold, in either
    arithmetic; an entry equal to the threshold is not counted; over
    [1,2,3,4,5] with threshold 3 the count is 2 and over [3] with threshold 3
    it is 0. *)
Theorem nca_get_neighbor_count_strict :
  (forall (F : Type) (HF : CFloat F) (distances : list F) (range_threshold : F),
      nca_get_neighbor_count distances (Z.of_nat (length distances)) range_threshold
      = Some (Z.of_nat (length
                (List.filter (fun d => f_lt d range_threshold) distances))))
  /\ (forall t : R, nca_get_neighbor_count [t] 1 t = Some 0%Z)
  /\ (forall t : spec_float,
        @nca_get_neighbor_count _ b32_float [t] 1 t = Some 0%Z)
  /\ nca_get_neighbor_count [1; 2; 3; 4; 5]%R 5 3%R = Some 2%Z
  /\ nca_get_neighbor_count [3%R] 1 3%R = Some 0%Z
  /\ @nca_get_neighbor_count _ b32_float
       (map B32.of_Z [1; 2; 3; 4; 5]%Z) 5 (B32.of_Z 3) = Some 2%Z
  /\ @nca_get_neighbor_count _ b32_float [B32.of_Z 3] 1 (B32.of_Z 3) = Some 0%Z.
Proof.
  split; [intros; apply nca_get_neighbor_count_whole|].
  split.
  { intros t. count_unroll. now rewrite Rltb_irrefl. }
  split.
  { intros t. count_unroll. now rewrite SFltb_irrefl. }
  split.
  { count_unroll. Rltb_const. reflexivity. }
  split.
  { count_unroll. Rltb_const. reflexivity. }
  split; vm_compute; reflexivity.
Qed.

(** ** ProximityModel: signal strength *)

Lemma nca_rssi_R_far (d m : R) : (d > m)%R -> nca_rssi d m = 0%R.
Proof.
  intros Hgt. unfold nca_rssi, f_gt. cbn [f_lt R_float].
  rewrite (proj2 (Rltb_true m d)) by lra. reflexivity.
Qed.

Lemma nca_rssi_R_near (d m : R) : (d <= m)%R -> nca_rssi d m = (1 - d / m)%R.
Proof.
  intros Hle. unfold nca_rssi, f_gt. cbn [f_lt R_float].
  rewrite (proj2 (Rltb_false m d)) by lra. reflexivity.
Qed.

(** C6.  [nca_rssi] returns 0 when the distance exceeds the maximum and
    [1 - distance / max_distance] otherwise, in real arithmetic and in
    binary32; at (0,10), (5,10), (10,10) and (15,10) it returns 1, 0.5, 0
    and 0, exactly, in both. *)
Theorem nca_rssi_contract :
  (forall d m : R,
      ((d > m)%R -> nca_rssi d m = 0%R) /\
      ((d <= m)%R -> nca_rssi d m = (1 - d / m)%R))
  /\ (nca_rssi 0 10 = 1 /\ nca_rssi 5 10 = 1 / 2 /\
      nca_rssi 10 10 = 0 /\ nca_rssi 15 10 = 0)%R
  /\ (forall d m : spec_float,
        @nca_rssi _ b32_float d m
        = if SFltb m d then S754_zero false
          else B32.sub (B32.of_Z 1) (B32.div d m))
  /\ (@nca_rssi _ b32_float (B32.of_Z 0) (B32.of_Z 10) = B32.of_Z 1 /\
      @nca_rssi _ b32_float (B32.of_Z 5) (B32.of_Z 10) = B32.half /\
      @nca_rssi _ b32_float (B32.of_Z 10) (B32.of_Z 10) = S754_zero false /\
      @nca_rssi _ b32_float (B32.of_Z 15) (B32.of_Z 10) = S754_zero false).
Proof.
  split.
  { intros d m. split; [apply nca_rssi_R_far|apply nca_rssi_R_near]. }
  split.
  { repeat split.
    - rewrite nca_rssi_R_near by lra. lra.
    - rewrite nca_rssi_R_near by lra. lra.
    - rewrite nca_rssi_R_near by lra. lra.
    - apply nca_rssi_R_far. lra. }
  split; [reflexivity|].
  repeat split; vm_compute; reflexivity.
Qed.



End Claims_Proximity.

(** The two branches of C6 at (15,10) and at (5,10). *)
Lemma nca_rssi_contract_witness :
  nca_rssi 15%R 10%R = 0%R /\ nca_rssi 5%R 10%R = (1 - 5 / 10)%R.
Proof.
  split.
  - apply (proj1 (proj1 nca_rssi_contract 15%R 10%R)). lra.
  - apply (proj2 (proj1 nca_rssi_contract 5%R 10%R)). lra.
Defined.


(** ** InferenceEngine and ActionDecoder, in either arithmetic *)

Section Claims_Machine.
Context {F : Type} {HF : CFloat F} {HL : CLibm F}.
Variable net : NetworkParameters F.
Variable default_config : AgentConfig F.
Variable libc : RandomSource.
Local Open Scope cfloat_scope.

(** C8.  Whatever the static buffers, the generator and the caller's output
    array hold before the call, [nca_forward] returns the vector
    [forward net input], a function of the parameters and the input alone
    whose sums are taken in index order; so two calls on the same input
    return the same floats, also when another call ran in between. *)
Theorem nca_forward_deterministic
    (input output1 output2 : list F) (s1 s2 : State F libc) :
  wf_state net s1 ->
  wf_state net s2 ->
  length input = NCA_INPUT_SIZE net ->
  length output1 = NCA_OUTPUT_SIZE net ->
  length output2 = NCA_OUTPUT_SIZE net ->
  (exists s1' s2',
      nca_forward net libc input output1 s1 = Some (forward net input, s1') /\
      nca_forward net libc input output2 s2 = Some (forward net input, s2')) /\
  (forall other : list F,
      length other = NCA_INPUT_SIZE net ->
      exists s',
        (nca_forward net libc other output1 ;;;
         nca_forward net libc input output2) s1
        = Some (forward net input, s')).
Proof.
  intros Hs1 Hs2 Hin Ho1 Ho2. split.
  - exists (after_forward net libc input s1), (after_forward net libc input s2).
    split; apply nca_forward_correct; assumption.
  - intros other Hother. eexists. unfold bind.
    rewrite (nca_forward_correct net libc other) by assumption.
    apply nca_forward_correct; [apply wf_after_forward|assumption..].
Qed.

(** C10.  A call of [nca_act] calls [rand()] exactly twice, for every input
    and every configuration: the call counter grows by two and the
    generator is two steps further. *)
Theorem nca_act_draws_twice (input : list F) (s : State F libc) :
  wf_state net s ->
  length input = NCA_INPUT_SIZE net ->
  2 <= NCA_OUTPUT_SIZE net ->
  exists cmd s',
    nca_act net default_config libc input s = Some (cmd, s') /\
    rand_calls s' = (2 + rand_calls s)%nat /\
    rng s' = snd (rand_step libc (snd (rand_step libc (rng s)))).
Proof.
  intros Hs Hin Hout. rewrite nca_act_correct by assumption.
  eexists _, _. split; [reflexivity|]. split.
  - rewrite rand_calls_after_rand. reflexivity.
  - reflexivity.
Qed.

(** Every tick of a run computes the same noise scale. *)
Lemma run_ticks_noise_scale (inputs : list (list F)) :
  forall s : State F libc,
    wf_state net s ->
    Forall (fun input => length input = NCA_INPUT_SIZE net) inputs ->
    2 <= NCA_OUTPUT_SIZE net ->
    exists ls s',
      run_ticks net default_config libc inputs s = Some (ls, s') /\
      length ls = length inputs /\
      Forall (fun l => l_noise_scale l
                       = noise default_config
                         * f_exp ((- noise default_config) * f_centi)) ls.
Proof.
  induction inputs as [|input rest IH]; intros s Hs Hall Hout.
  - exists [], s. repeat split. constructor.
  - apply Forall_cons in Hall as [Hin Hrest].
    destruct (IH (after_rand 2 (after_forward net libc input s)))
      as (ls & s' & Hrun & Hlen & Hls);
      [apply wf_after_rand, wf_after_forward|exact Hrest|exact Hout|].
    cbn [run_ticks]. unfold bind at 1.
    rewrite nca_act_body_correct by assumption.
    unfold bind at 1. rewrite Hrun. unfold ret.
    eexists _, _. split; [reflexivity|]. split.
    + cbn [length]. now rewrite Hlen.
    + constructor; [reflexivity|exact Hls].
Qed.
End Claims_Machine.

(** C8 on the demo agent, from two different boots. *)
Lemma nca_forward_deterministic_witness :
  (exists s1' s2',
      nca_forward Demo.net Demo.libc Demo.input [0; 0]%R (Demo.boot 1)
      = Some (forward Demo.net Demo.input, s1') /\
      nca_forward Demo.net Demo.libc Demo.input [7; 7]%R (Demo.boot 2)
      = Some (forward Demo.net Demo.input, s2')) /\
  (forall other : list R,
      length other = NCA_INPUT_SIZE Demo.net ->
      exists s',
        (nca_forward Demo.net Demo.libc other [0; 0]%R ;;;
         nca_forward Demo.net Demo.libc Demo.input [7; 7]%R) (Demo.boot 1)
        = Some (forward Demo.net Demo.input, s')).
Proof.
  apply (nca_forward_deterministic Demo.net Demo.libc Demo.input
           [0; 0]%R [7; 7]%R (Demo.boot 1) (Demo.boot 2)
           (wf_demo_boot 1) (wf_demo_boot 2) eq_refl eq_refl eq_refl).
Defined.

(** C10 on the demo agent, with and without exploration noise. *)
Lemma nca_act_draws_twice_witness :
  (exists cmd s',
      nca_act Demo.net Demo.config Demo.libc Demo.input (Demo.boot 1)
      = Some (cmd, s') /\
      rand_calls s' = 2 /\
      rng s' = snd (rand_step Demo.libc (snd (rand_step Demo.libc 1%Z)))) /\
  (exists cmd s',
      nca_act Demo.net Demo.quiet Demo.libc Demo.input (Demo.boot 1)
      = Some (cmd, s') /\
      rand_calls s' = 2 /\
      rng s' = snd (rand_step Demo.libc (snd (rand_step Demo.libc 1%Z)))).
Proof.
  split.
  - apply (nca_act_draws_twice Demo.net Demo.config Demo.libc Demo.input
             (Demo.boot 1) (wf_demo_boot 1) eq_refl (le_n 2)).
  - apply (nca_act_draws_twice Demo.net Demo.quiet Demo.libc Demo.input
             (Demo.boot 1) (wf_demo_boot 1) eq_refl (le_n 2)).
Defined.



(** ** Real arithmetic: the numeric guarantees *)


(** Rescaling a vector longer than [v] by [v / length] gives length [v]. *)
Lemma rescaled_norm (dx dy v : R) :
  (0 <= v)%R ->
  (v < sqrt (dx * dx + dy * dy))%R ->
  sqrt (dx / sqrt (dx * dx + dy * dy) * v * (dx / sqrt (dx * dx + dy * dy) * v)
        + dy / sqrt (dx * dx + dy * dy) * v * (dy / sqrt (dx * dx + dy * dy) * v))
  = v.
Proof.
  intros Hv Hlt.
  set (q := (dx * dx + dy * dy)%R) in *.
  assert (Hq : (0 <= q)%R) by (unfold q; nra).
  pose proof (sqrt_sqrt q Hq) as Hmm.
  set (m := sqrt q) in *.
  assert (Hm : (0 < m)%R) by lra.
  replace (dx / m * v * (dx / m * v) + dy / m * v * (dy / m * v))%R
    with (q / (m * m) * (v * v))%R by (unfold q; field; lra).
  rewrite Hmm.
  replace (q / q * (v * v))%R with (v * v)%R by (field; nra).
  apply sqrt_square, Hv.
Qed.

Section Claims_Real.
Variable net : NetworkParameters R.
Variable default_config : AgentConfig R.
Variable libc : RandomSource.
Implicit Types (s : State R libc) (input output : list R).



(** The clamp of [nca_act] over the reals. *)
Lemma decide_locals_clamped (o0 o1 : R) (r0 r1 : Z) :
  (0 < speed default_config)%R ->
  let l := decide_locals default_config libc o0 o1 r0 r1 in
  l_magnitude l = sqrt (l_dx0 l * l_dx0 l + l_dy0 l * l_dy0 l) /\
  (sqrt (l_dx l * l_dx l + l_dy l * l_dy l) <= speed default_config)%R /\
  ((speed default_config < l_magnitude l)%R ->
     (0 < speed default_config / l_magnitude l)%R /\
     l_dx l = (l_dx0 l / l_magnitude l * speed default_config)%R /\
     l_dy l = (l_dy0 l / l_magnitude l * speed default_config)%R /\
     l_dx l = (speed default_config / l_magnitude l * l_dx0 l)%R /\
     l_dy l = (speed default_config / l_magnitude l * l_dy0 l)%R /\
     sqrt (l_dx l * l_dx l + l_dy l * l_dy l) = speed default_config) /\
  ((l_magnitude l <= speed default_config)%R ->
     l_dx l = l_dx0 l /\ l_dy l = l_dy0 l).
Proof.
  intros Hv l. unfold l, decide_locals.
  cbn [l_magnitude l_dx0 l_dy0 l_dx l_dy].
  set (dx := decide_axis default_config libc o0 r0).
  set (dy := decide_axis default_config libc o1 r1).
  unfold f_gt. cbn [f_lt f_sqrt f_add f_mul f_div R_float].
  set (m := sqrt (dx * dx + dy * dy)).
  split; [reflexivity|].
  destruct (Rltb (speed default_config) m) eqn:E.
  - apply Rltb_true in E.
    pose proof (rescaled_norm dx dy (speed default_config)
                  (Rlt_le _ _ Hv) E) as Hn. fold m in Hn.
    split; [rewrite Hn; lra|]. split; [|intros Hle; lra].
    intros _. split; [apply Rdiv_lt_0_compat; lra|].
    repeat split; try exact Hn; field; lra.
  - apply Rltb_false in E.
    split; [exact E|]. split; [intros Hlt; lra|]. intros _. split; reflexivity.
Qed.




(** Where [nca_act] divides, the divisor is not zero. *)
Lemma decide_locals_division (o0 o1 : R) (r0 r1 : Z) :
  (0 < speed default_config)%R ->
  let l := decide_locals default_config libc o0 o1 r0 r1 in
  (f_gt (l_magnitude l) (speed default_config) = false /\
   l_dx l = l_dx0 l /\ l_dy l = l_dy0 l)
  \/
  (f_gt (l_magnitude l) (speed default_config) = true /\
   l_magnitude l <> 0%R /\
   l_dx l = (l_dx0 l / l_magnitude l * speed default_config)%R /\
   l_dy l = (l_dy0 l / l_magnitude l * speed default_config)%R).
Proof.
  intros Hv l. unfold l, decide_locals.
  cbn [l_magnitude l_dx0 l_dy0 l_dx l_dy].
  destruct (f_gt _ _) eqn:E.
  - right. repeat split. unfold f_gt in E. cbn [f_lt R_float] in E.
    apply Rltb_true in E. lra.
  - left. repeat split.
Qed.
End Claims_Real.

(** C9.  Under their preconditions the four operations return a value and
    leave the machine ready for the next call: [nca_forward] and [nca_act]
    for an input of [NCA_INPUT_SIZE] cells (and at least two outputs for
    [nca_act]), any number of ticks in a row, and
    [nca_get_neighbor_count] for a count within the array.  Over the reals,
    [nca_act] with a positive [speed] either returns the unclamped command
    or divides by a magnitude that is not zero, and [nca_rssi] with a
    positive [max_distance] either returns 0 or divides by that non-zero
    maximum. *)
Theorem core_operations_total :
  (forall (F : Type) (HF : CFloat F) (HL : CLibm F) (net : NetworkParameters F)
          (libc : RandomSource) (input output : list F) (s : State F libc),
      wf_state net s ->
      length input = NCA_INPUT_SIZE net ->
      length output = NCA_OUTPUT_SIZE net ->
      exists out s',
        nca_forward net libc input output s = Some (out, s') /\
        length out = NCA_OUTPUT_SIZE net /\ wf_state net s')
  /\ (forall (F : Type) (HF : CFloat F) (HL : CLibm F) (net : NetworkParameters F)
            (default_config : AgentConfig F) (libc : RandomSource)
            (input : list F) (s : State F libc),
        wf_state net s ->
        length input = NCA_INPUT_SIZE net ->
        2 <= NCA_OUTPUT_SIZE net ->
        exists cmd s',
          nca_act net default_config libc input s = Some (cmd, s') /\
          wf_state net s')
  /\ (forall (F : Type) (HF : CFloat F) (HL : CLibm F) (net : NetworkParameters F)
            (default_config : AgentConfig F) (libc : RandomSource)
            (inputs : list (list F)) (s : State F libc),
        wf_state net s ->
        Forall (fun input => length input = NCA_INPUT_SIZE net) inputs ->
        2 <= NCA_OUTPUT_SIZE net ->
        exists ls s',
          run_ticks net default_config libc inputs s = Some (ls, s') /\
          length ls = length inputs)
  /\ (forall (F : Type) (HF : CFloat F) (distances : list F)
            (max_neighbors : Z) (range_threshold : F),
        (max_neighbors <= Z.of_nat (length distances))%Z ->
        exists count,
          nca_get_neighbor_count distances max_neighbors range_threshold
          = Some count /\
          (0 <= count <= Z.max 0 max_neighbors)%Z)
  /\ (forall (net : NetworkParameters R) (default_config : AgentConfig R)
            (libc : RandomSource) (input : list R) (s : State R libc),
        wf_state net s ->
        length input = NCA_INPUT_SIZE net ->
        2 <= NCA_OUTPUT_SIZE net ->
        (0 < speed default_config)%R ->
        exists l s',
          nca_act_body net default_config libc input s = Some (l, s') /\
          ((f_gt (l_magnitude l) (speed default_config) = false /\
            l_dx l = l_dx0 l /\ l_dy l = l_dy0 l)
           \/
           (f_gt (l_magnitude l) (speed default_config) = true /\
            l_magnitude l <> 0%R /\
            l_dx l = (l_dx0 l / l_magnitude l * speed default_config)%R /\
            l_dy l = (l_dy0 l / l_magnitude l * speed default_config)%R)))
  /\ (forall distance max_distance : R,
        (0 < max_distance)%R ->
        (f_gt distance max_distance = true /\
         nca_rssi distance max_distance = 0%R)
        \/
        (f_gt distance max_distance = false /\
         max_distance <> 0%R /\
         nca_rssi distance max_distance = (1 - distance / max_distance)%R)).
Proof.
  split.
  { intros F HF HL net libc input output s Hs Hin Hout.
    eexists _, _. split; [apply nca_forward_correct; assumption|].
    split; [apply length_forward|apply wf_after_forward]. }
  split.
  { intros F HF HL net default_config libc input s Hs Hin Hout.
    rewrite nca_act_correct by assumption.
    eexists _, _. split; [reflexivity|].
    apply wf_after_rand, wf_after_forward. }
  split.
  { intros F HF HL net default_config libc inputs s Hs Hall Hout.
    destruct (run_ticks_noise_scale net default_config libc inputs s Hs Hall Hout)
      as (ls & s' & Hrun & Hlen & _).
    exists ls, s'. split; assumption. }
  split.
  { intros F HF distances max_neighbors thr Hmax.
    unfold nca_get_neighbor_count.
    rewrite count_loop_spec by lia.
    eexists. split; [reflexivity|].
    rewrite drop_0.
    pose proof (filter_length (fun d => f_lt d thr)
                  (take (Z.to_nat max_neighbors) distances)) as Hf.
    rewrite length_take in Hf. lia. }
  split.
  { intros net default_config libc input s Hs Hin Hout Hv.
    eexists _, _. split; [apply nca_act_body_correct; assumption|].
    apply decide_locals_division, Hv. }
  intros d m Hm. unfold nca_rssi.
  destruct (f_gt d m) eqn:E.
  - left. split; reflexivity.
  - right. repeat split. lra.
Qed.

(** ** The theorems at the demo agent *)


Lemma demo_speed_positive : (0 < speed Demo.config)%R.
Proof. cbn. lra. Qed.



(** C9 on the demo agent, on a three-entry distance array and at
    (distance, max_distance) = (5, 10). *)
Lemma core_operations_total_witness :
  (exists out s',
      nca_forward Demo.net Demo.libc Demo.input [0; 0]%R (Demo.boot 1)
      = Some (out, s') /\
      length out = 2 /\ wf_state Demo.net s')
  /\ (exists cmd s',
        nca_act Demo.net Demo.config Demo.libc Demo.input (Demo.boot 1)
        = Some (cmd, s') /\ wf_state Demo.net s')
  /\ (exists ls s',
        run_ticks Demo.net Demo.config Demo.libc
          [Demo.input; [3; 4]%R] (Demo.boot 1) = Some (ls, s') /\
        length ls = 2)
  /\ (exists count,
        nca_get_neighbor_count [1; 5; 2]%R 3 3%R = Some count /\
        (0 <= count <= 3)%Z)
  /\ (exists l s',
        nca_act_body Demo.net Demo.config Demo.libc Demo.input (Demo.boot 1)
        = Some (l, s') /\
        ((f_gt (l_magnitude l) 1%R = false /\
          l_dx l = l_dx0 l /\ l_dy l = l_dy0 l)
         \/
         (f_gt (l_magnitude l) 1%R = true /\
          l_magnitude l <> 0%R /\
          l_dx l = (l_dx0 l / l_magnitude l * 1)%R /\
          l_dy l = (l_dy0 l / l_magnitude l * 1)%R)))
  /\ ((f_gt 5%R 10%R = true /\ nca_rssi 5%R 10%R = 0%R)
      \/
      (f_gt 5%R 10%R = false /\ 10%R <> 0%R /\
       nca_rssi 5%R 10%R = (1 - 5 / 10)%R)).
Proof.
  destruct core_operations_total
    as (Hfwd & Hact & Hrun & Hcount & Hdiv & Hrssi).
  split.
  { apply (Hfwd R R_float R_libm Demo.net Demo.libc Demo.input [0; 0]%R
             (Demo.boot 1) (wf_demo_boot 1) eq_refl eq_refl). }
  split.
  { apply (Hact R R_float R_libm Demo.net Demo.config Demo.libc Demo.input
             (Demo.boot 1) (wf_demo_boot 1) eq_refl (le_n 2)). }
  split.
  { apply (Hrun R R_float R_libm Demo.net Demo.config Demo.libc
             [Demo.input; [3; 4]%R] (Demo.boot 1) (wf_demo_boot 1));
      [repeat constructor|apply le_n]. }
  split.
  { apply (Hcount R R_float [1; 5; 2]%R 3%Z 3%R). cbn. lia. }
  split.
  { apply (Hdiv Demo.net Demo.config Demo.libc Demo.input
             (Demo.boot 1) (wf_demo_boot 1) eq_refl (le_n 2)
             demo_speed_positive). }
  apply (Hrssi 5%R 10%R). lra.
Defined.

(** ** Binary32: what the real-number results become under rounding *)

Lemma b32_same_refl (x : spec_float) : B32.same x x.
Proof. left. reflexivity. Qed.

Lemma b32_same_common (x y z : spec_float) :
  B32.same x z -> B32.same y z -> B32.same x y.
Proof.
  intros [->|[Hx Hz]] [->|[Hy Hz']].
  - left. reflexivity.
  - right. split; assumption.
  - right. split; assumption.
  - right. split; assumption.
Qed.

(** Adding a zero changes at most the sign of a zero. *)
Lemma b32_add_zero (p : spec_float) (z : spec_float) :
  B32.is_zero z = true -> B32.same (B32.add p z) p.
Proof.
  destruct z as [sz| | |]; try discriminate. intros _.
  destruct p as [sp|sp| |sp mp ep]; try destruct sp; destruct sz; cbn;
    first [left; reflexivity | right; split; reflexivity].
Qed.

(** A finite float times a zero is a zero. *)
Lemma b32_mul_zero_r (x z : spec_float) :
  B32.finite x = true -> B32.is_zero z = true ->
  B32.is_zero (B32.mul x z) = true.
Proof.
  destruct z as [sz| | |]; try discriminate.
  destruct x as [sx|sx| |sx mx ex]; try discriminate; reflexivity.
Qed.

Lemma b32_mul_zero_l (z x : spec_float) :
  B32.is_zero z = true -> B32.finite x = true ->
  B32.is_zero (B32.mul z x) = true.
Proof.
  destruct z as [sz| | |]; try discriminate.
  destruct x as [sx|sx| |sx mx ex]; try discriminate; reflexivity.
Qed.

(** The square forgets the sign of a zero. *)
Lemma b32_mul_self (x y : spec_float) :
  B32.same x y -> B32.mul x x = B32.mul y y.
Proof.
  intros [->|[Hx Hy]]; [reflexivity|].
  destruct x as [sx| | |]; try discriminate.
  destruct y as [sy| | |]; try discriminate.
  destruct sx, sy; reflexivity.
Qed.

Lemma b32_div_same (x y m : spec_float) :
  B32.same x y -> B32.same (B32.div x m) (B32.div y m).
Proof.
  intros [->|[Hx Hy]]; [apply b32_same_refl|].
  destruct x as [sx| | |]; try discriminate.
  destruct y as [sy| | |]; try discriminate.
  destruct m as [sm|sm| |sm mm em]; cbn;
    first [left; reflexivity | right; split; reflexivity].
Qed.

Lemma b32_mul_same (x y v : spec_float) :
  B32.same x y -> B32.same (B32.mul x v) (B32.mul y v).
Proof.
  intros [->|[Hx Hy]]; [apply b32_same_refl|].
  destruct x as [sx| | |]; try discriminate.
  destruct y as [sy| | |]; try discriminate.
  destruct v as [sv|sv| |sv mv ev]; cbn;
    first [left; reflexivity | right; split; reflexivity].
Qed.

(** Two floats that are the same compare equal, unless both are NaN. *)
Lemma b32_same_eqb (x y : spec_float) :
  B32.same x y -> SFeqb x y = true \/ (x = S754_nan /\ y = S754_nan).
Proof.
  intros [->|[Hx Hy]].
  - destruct y as [s|s| |s m e]; [left|left|right|left];
      [ reflexivity | destruct s; reflexivity | split; reflexivity | ].
    unfold SFeqb, SFcompare.
    rewrite Z.compare_refl, Pos.compare_cont_refl. destruct s; reflexivity.
  - destruct x as [sx| | |]; try discriminate.
    destruct y as [sy| | |]; try discriminate.
    left. reflexivity.
Qed.

Section Binary32.
Variables tanhf expf : spec_float -> spec_float.
Variable net : NetworkParameters spec_float.
Variable default_config : AgentConfig spec_float.
Variable libc : RandomSource.
Let libm : CLibm spec_float := b32_libm tanhf expf.
Local Existing Instance libm.

(** With [noise] a zero of sign [sn], [expf] is called on the zero of the
    opposite sign; if it returns a finite float there, the noise scale is a
    zero. *)
Lemma decide_noise_scale_b32 (sn : bool) :
  noise default_config = S754_zero sn ->
  B32.finite (expf (S754_zero (negb sn))) = true ->
  B32.is_zero (decide_noise_scale default_config) = true.
Proof.
  intros Hn He. unfold decide_noise_scale. rewrite Hn.
  cbn [f_mul f_neg f_exp f_centi b32_float libm b32_libm SFopp].
  replace (B32.mul (S754_zero (negb sn)) B32.centi)
    with (S754_zero (negb sn)) by (destruct sn; reflexivity).
  apply b32_mul_zero_l; [reflexivity|exact He].
Qed.

Lemma decide_axis_b32 (sn : bool) (o : spec_float) (r : Z) :
  noise default_config = S754_zero sn ->
  B32.finite (expf (S754_zero (negb sn))) = true ->
  B32.finite (B32.centred (RAND_MAX libc) r) = true ->
  B32.same (decide_axis default_config libc o r)
           (B32.mul o (speed default_config)).
Proof.
  intros Hn He Hr. unfold decide_axis.
  apply b32_add_zero, b32_mul_zero_r;
    [exact Hr|apply (decide_noise_scale_b32 sn Hn He)].
Qed.

(** In binary32, with [noise] a zero, an [expf] that is finite at zero and a
    generator whose centred samples are finite, the commands [nca_act]
    returns from any two states are the same float by float. *)
Lemma nca_act_noise_free_b32 (sn : bool) (input : list spec_float)
    (s1 s2 : State spec_float libc) :
  wf_state net s1 ->
  wf_state net s2 ->
  length input = NCA_INPUT_SIZE net ->
  2 <= NCA_OUTPUT_SIZE net ->
  noise default_config = S754_zero sn ->
  B32.finite (expf (S754_zero (negb sn))) = true ->
  (forall g, B32.finite (B32.centred (RAND_MAX libc)
                           (fst (rand_step libc g))) = true) ->
  exists dx1 dy1 s1' dx2 dy2 s2',
    nca_act net default_config libc input s1 = Some ((dx1, dy1), s1') /\
    nca_act net default_config libc input s2 = Some ((dx2, dy2), s2') /\
    B32.same dx1 dx2 /\ B32.same dy1 dy2.
Proof.
  intros Hs1 Hs2 Hin Hout Hn He Hr.
  rewrite !nca_act_correct by assumption. cbv zeta.
  eexists _, _, _, _, _, _.
  split; [reflexivity|]. split; [reflexivity|].
  unfold decide_locals. cbn [l_dx l_dy].
  set (o0 := output_val net input 0). set (o1 := output_val net input 1).
  pose proof (fun r => decide_axis_b32 sn o0 r Hn He) as Hx.
  pose proof (fun r => decide_axis_b32 sn o1 r Hn He) as Hy.
  set (a1 := decide_axis default_config libc o0 (fst (rand_step libc (rng s1)))).
  set (b1 := decide_axis default_config libc o1
               (fst (rand_step libc (snd (rand_step libc (rng s1)))))).
  set (a2 := decide_axis default_config libc o0 (fst (rand_step libc (rng s2)))).
  set (b2 := decide_axis default_config libc o1
               (fst (rand_step libc (snd (rand_step libc (rng s2)))))).
  assert (Ha : B32.same a1 a2)
    by (apply (b32_same_common _ _ (B32.mul o0 (speed default_config)));
        apply Hx, Hr).
  assert (Hb : B32.same b1 b2)
    by (apply (b32_same_common _ _ (B32.mul o1 (speed default_config)));
        apply Hy, Hr).
  cbn [f_mul f_add f_div f_sqrt b32_float].
  rewrite (b32_mul_self a1 a2 Ha), (b32_mul_self b1 b2 Hb).
  destruct (f_gt _ _).
  - split; apply b32_mul_same, b32_div_same; assumption.
  - split; assumption.
Qed.

(** In binary32, with a [tanhf] that maps every float but NaN into
    [-1, 1], a component of the vector [nca_forward] returns is in [-1, 1]
    unless its weighted sum is NaN. *)
Lemma nca_forward_in_unit_b32 (input output : list spec_float)
    (s : State spec_float libc) :
  (forall x, x <> S754_nan -> B32.in_unit (tanhf x) = true) ->
  wf_state net s ->
  length input = NCA_INPUT_SIZE net ->
  length output = NCA_OUTPUT_SIZE net ->
  exists out s',
    nca_forward net libc input output s = Some (out, s') /\
    forall k, k < NCA_OUTPUT_SIZE net ->
      exists y, out !! k = Some y /\
        (sum_from (b2 net k) (fun i => B32.mul (hidden_val net input i) (w2 net i k))
           (NCA_HIDDEN_SIZE net) <> S754_nan ->
         B32.in_unit y = true).
Proof.
  intros Ht Hs Hin Hout.
  exists (forward net input), (after_forward net libc input s).
  split; [apply nca_forward_correct; assumption|].
  intros k Hk. eexists. split.
  - unfold forward. rewrite list_lookup_fmap, lookup_seq_lt by exact Hk.
    reflexivity.
  - intros Hsum. apply Ht, Hsum.
Qed.
End Binary32.

(** * Further properties of the agent *)

(** ** Loops that agree on the indices they visit *)

Lemma for_acc_ext {St A} (body1 body2 : nat -> A -> M St A) n :
  forall i acc s,
    (forall k a s', i <= k < i + n -> body1 k a s' = body2 k a s') ->
    for_acc n i body1 acc s = for_acc n i body2 acc s.
Proof.
  induction n as [|n IH]; intros i acc s Hb; [reflexivity|].
  cbn [for_acc]. unfold bind. rewrite Hb by lia.
  destruct (body2 i acc s) as [[a s']|]; [|reflexivity].
  apply IH. intros k a' s'' Hk. apply Hb. lia.
Qed.

Lemma bind_ext {St A B} (m : M St A) (k1 k2 : A -> M St B) (s : St) :
  (forall a s', k1 a s' = k2 a s') -> bind m k1 s = bind m k2 s.
Proof.
  intros Hk. unfold bind. destruct (m s) as [[a s']|]; [apply Hk|reflexivity].
Qed.

Section AgentInput.
Context {F : Type} {HF : CFloat F} {HL : CLibm F}.
Variable net : NetworkParameters F.
Variable libc : RandomSource.
Local Open Scope cfloat_scope.
Implicit Types (s : State F libc) (input output : list F).

(** [nca_forward] sees its input through [input[i]] for
    [i < NCA_INPUT_SIZE] only. *)
Lemma nca_forward_agree input1 input2 output s :
  (forall i, i < NCA_INPUT_SIZE net -> input1 !! i = input2 !! i) ->
  nca_forward net libc input1 output s = nca_forward net libc input2 output s.
Proof.
  intros Hin. unfold nca_forward.
  assert (Hl : forall s0 : State F libc,
    for_loop (NCA_HIDDEN_SIZE net) 0 (fun j =>
      sum <- for_acc (NCA_INPUT_SIZE net) 0 (fun i sum =>
               x <- load input1 i ;; ret (sum + x * w1 net i j)) (b1 net j) ;;
      hidden_store j (f_tanh sum)) s0
    = for_loop (NCA_HIDDEN_SIZE net) 0 (fun j =>
      sum <- for_acc (NCA_INPUT_SIZE net) 0 (fun i sum =>
               x <- load input2 i ;; ret (sum + x * w1 net i j)) (b1 net j) ;;
      hidden_store j (f_tanh sum)) s0).
  { intros s0. unfold for_loop. apply for_acc_ext.
    intros j [] s' _. unfold bind at 1 3.
    rewrite (for_acc_ext _ (fun i sum =>
               x <- load input2 i ;; ret (sum + x * w1 net i j))); [reflexivity|].
    intros i a s'' Hi. unfold bind, load. rewrite Hin by lia. reflexivity. }
  unfold bind at 1 4. rewrite Hl. reflexivity.
Qed.

(** The sum loop fails when it runs past the end of the array it reads. *)
Lemma for_acc_load_short input (w : nat -> F) s n :
  forall i b,
    i <= length input ->
    length input < i + n ->
    for_acc n i (fun k sum => x <- load input k ;; ret (sum + x * w k)) b s
    = None.
Proof.
  induction n as [|n IH]; intros i b Hi Hn; [lia|].
  cbn [for_acc]. unfold bind at 1. unfold bind at 1.
  destruct (decide (i < length input)) as [Hlt|Hge].
  - rewrite load_in_range by exact Hlt. unfold ret at 1. apply IH; lia.
  - unfold load. rewrite lookup_ge_None_2 by lia. reflexivity.
Qed.

(** X1.  [nca_forward] reads exactly the first [NCA_INPUT_SIZE] cells of its
    input: cells after them do not change what it does, and with fewer cells
    (and at least one hidden unit) it reads outside the array. *)
Theorem nca_forward_input_cells input output s :
  (forall extra : list F,
      length input = NCA_INPUT_SIZE net ->
      nca_forward net libc (input ++ extra) output s
      = nca_forward net libc input output s) /\
  (length input < NCA_INPUT_SIZE net ->
   0 < NCA_HIDDEN_SIZE net ->
   nca_forward net libc input output s = None).
Proof.
  split.
  - intros extra Hlen. apply nca_forward_agree.
    intros i Hi. apply lookup_app_l. lia.
  - intros Hshort Hhid. unfold nca_forward.
    destruct (NCA_HIDDEN_SIZE net) as [|h]; [lia|].
    unfold bind at 1. unfold for_loop at 1. cbn [for_acc].
    unfold bind at 1. unfold bind at 1.
    rewrite for_acc_load_short by lia. reflexivity.
Qed.

(** X2.  What a call of [nca_forward] leaves behind: the static buffer
    [hidden] holds the hidden activations of this input, [output_buf] holds
    the vector that was returned, and the generator and its call counter are
    as before. *)
Theorem nca_forward_effect input output s :
  wf_state net s ->
  length input = NCA_INPUT_SIZE net ->
  length output = NCA_OUTPUT_SIZE net ->
  exists out s',
    nca_forward net libc input output s = Some (out, s') /\
    hidden s' = map (hidden_val net input) (seq 0 (NCA_HIDDEN_SIZE net)) /\
    output_buf s' = out /\
    rng s' = rng s /\
    rand_calls s' = rand_calls s /\
    wf_state net s'.
Proof.
  intros Hs Hin Hout.
  exists (forward net input), (after_forward net libc input s).
  split; [apply nca_forward_correct; assumption|].
  repeat split; try reflexivity; apply wf_after_forward.
Qed.
End AgentInput.

(** ** The decoder at the edges of its configuration, over the reals *)

Lemma Rabs_le_norm (x y : R) : (Rabs x <= sqrt (x * x + y * y))%R.
Proof.
  rewrite <- sqrt_Rsqr_abs. apply sqrt_le_1_alt. unfold Rsqr. nra.
Qed.

Lemma Rabs_le_bounds (x b : R) : (Rabs x <= b)%R -> (- b <= x <= b)%R.
Proof. unfold Rabs. destruct (Rcase_abs x); lra. Qed.

(** Rescaling a non-zero vector by [v / length] gives length [|v|]. *)
Lemma rescaled_norm_abs (dx dy v : R) :
  (0 < sqrt (dx * dx + dy * dy))%R ->
  sqrt (dx / sqrt (dx * dx + dy * dy) * v * (dx / sqrt (dx * dx + dy * dy) * v)
        + dy / sqrt (dx * dx + dy * dy) * v * (dy / sqrt (dx * dx + dy * dy) * v))
  = Rabs v.
Proof.
  intros Hm.
  set (q := (dx * dx + dy * dy)%R) in *.
  assert (Hq : (0 <= q)%R) by (unfold q; nra).
  pose proof (sqrt_sqrt q Hq) as Hmm.
  set (m := sqrt q) in *.
  replace (dx / m * v * (dx / m * v) + dy / m * v * (dy / m * v))%R
    with (q / (m * m) * (v * v))%R by (unfold q; field; lra).
  rewrite Hmm.
  replace (q / q * (v * v))%R with (Rsqr v) by (unfold Rsqr; field; nra).
  apply sqrt_Rsqr_abs.
Qed.

(** [x * exp (- x / 100)] is largest at [x = 100]. *)
Lemma decay_peak (x : R) :
  (x * exp (- x * (1 / 100)) <= 100 * exp (- 1))%R.
Proof.
  pose proof (exp_ineq1_le (x * (1 / 100) - 1)) as Hi.
  pose proof (exp_pos (- x * (1 / 100))) as Hp.
  assert (He : (exp (x * (1 / 100) - 1) * exp (- x * (1 / 100)) = exp (- 1))%R).
  { rewrite <- exp_plus. f_equal. lra. }
  assert (Hm : ((1 + (x * (1 / 100) - 1)) * exp (- x * (1 / 100))
                <= exp (x * (1 / 100) - 1) * exp (- x * (1 / 100)))%R)
    by (apply Rmult_le_compat_r; lra).
  rewrite He in Hm. lra.
Qed.

Lemma exp_nonpos_le_1 (x : R) : (x <= 0)%R -> (exp x <= 1)%R.
Proof.
  intros [Hlt|Heq]; [|rewrite Heq, exp_0; lra].
  rewrite <- exp_0. left. apply exp_increasing, Hlt.
Qed.

Section AgentEdges.
Variable net : NetworkParameters R.
Variable default_config : AgentConfig R.
Variable libc : RandomSource.
Implicit Types (s : State R libc) (input output : list R).

Lemma decide_locals_zero_speed (o0 o1 : R) (r0 r1 : Z) :
  speed default_config = 0%R ->
  l_dx (decide_locals default_config libc o0 o1 r0 r1) = 0%R /\
  l_dy (decide_locals default_config libc o0 o1 r0 r1) = 0%R.
Proof.
  intros Hv. unfold decide_locals. cbn [l_dx l_dy].
  set (dx := decide_axis default_config libc o0 r0).
  set (dy := decide_axis default_config libc o1 r1).
  unfold f_gt. cbn [f_lt f_sqrt f_add f_mul f_div R_float].
  rewrite Hv.
  destruct (Rltb 0 (sqrt (dx * dx + dy * dy))) eqn:E.
  - split; unfold Rdiv; ring.
  - apply Rltb_false in E.
    assert (Hq : (0 <= dx * dx + dy * dy)%R) by nra.
    pose proof (sqrt_pos (dx * dx + dy * dy)) as Hp.
    assert (H0 : sqrt (dx * dx + dy * dy) = 0%R) by lra.
    apply (sqrt_eq_0 _ Hq) in H0. split; nra.
Qed.

(** X3.  With [speed = 0] every command is (0, 0), whatever the input, the
    configured noise and the samples drawn. *)
Theorem nca_act_zero_speed input s :
  wf_state net s ->
  length input = NCA_INPUT_SIZE net ->
  2 <= NCA_OUTPUT_SIZE net ->
  speed default_config = 0%R ->
  exists s',
    nca_act net default_config libc input s = Some ((0%R, 0%R), s').
Proof.
  intros Hs Hin Hout Hv. rewrite nca_act_correct by assumption. cbv zeta.
  destruct (decide_locals_zero_speed
              (output_val net input 0) (output_val net input 1)
              (fst (rand_step libc (rng s)))
              (fst (rand_step libc (snd (rand_step libc (rng s))))) Hv)
    as [-> ->].
  eexists. reflexivity.
Qed.

(** X4.  With a negative [speed] the clamp is always taken: a non-zero
    command before the clamp is multiplied by the negative factor
    [speed / magnitude], so the command returned points the opposite way and
    has norm [- speed], which is above [speed]. *)
Theorem nca_act_negative_speed input s :
  wf_state net s ->
  length input = NCA_INPUT_SIZE net ->
  2 <= NCA_OUTPUT_SIZE net ->
  (speed default_config < 0)%R ->
  exists l s',
    nca_act_body net default_config libc input s = Some (l, s') /\
    nca_act net default_config libc input s = Some ((l_dx l, l_dy l), s') /\
    l_dx l = (l_dx0 l / l_magnitude l * speed default_config)%R /\
    l_dy l = (l_dy0 l / l_magnitude l * speed default_config)%R /\
    ((0 < l_magnitude l)%R ->
       (speed default_config / l_magnitude l < 0)%R /\
       l_dx l = (speed default_config / l_magnitude l * l_dx0 l)%R /\
       l_dy l = (speed default_config / l_magnitude l * l_dy0 l)%R /\
       sqrt (l_dx l * l_dx l + l_dy l * l_dy l) = (- speed default_config)%R /\
       (speed default_config < sqrt (l_dx l * l_dx l + l_dy l * l_dy l))%R).
Proof.
  intros Hs Hin Hout Hv.
  eexists _, _. split; [apply nca_act_body_correct; assumption|].
  split; [apply nca_act_correct; assumption|].
  unfold decide_locals. cbn [l_dx l_dy l_dx0 l_dy0 l_magnitude].
  set (dx := decide_axis default_config libc _ _).
  set (dy := decide_axis default_config libc _ _).
  unfold f_gt. cbn [f_lt f_sqrt f_add f_mul f_div R_float].
  pose proof (sqrt_pos (dx * dx + dy * dy)) as Hp.
  rewrite (proj2 (Rltb_true _ _)) by lra.
  split; [reflexivity|]. split; [reflexivity|].
  intros Hm.
  pose proof (rescaled_norm_abs dx dy (speed default_config) Hm) as Hn.
  rewrite Rabs_left in Hn by exact Hv.
  assert (Hinv : (0 < / sqrt (dx * dx + dy * dy))%R)
    by apply Rinv_0_lt_compat, Hm.
  split; [unfold Rdiv; nra|].
  split; [field; lra|]. split; [field; lra|].
  split; [exact Hn|]. rewrite Hn. lra.
Qed.

(** X5.  With a positive [speed] each component of the command lies in
    [[-speed, speed]]: the bound the motor test asserts per axis. *)
Theorem nca_act_axis_bounds input s :
  wf_state net s ->
  length input = NCA_INPUT_SIZE net ->
  2 <= NCA_OUTPUT_SIZE net ->
  (0 < speed default_config)%R ->
  exists dx dy s',
    nca_act net default_config libc input s = Some ((dx, dy), s') /\
    (- speed default_config <= dx <= speed default_config)%R /\
    (- speed default_config <= dy <= speed default_config)%R.
Proof.
  intros Hs Hin Hout Hv. rewrite nca_act_correct by assumption. cbv zeta.
  eexists _, _, _. split; [reflexivity|].
  destruct (decide_locals_clamped default_config libc
              (output_val net input 0) (output_val net input 1)
              (fst (rand_step libc (rng s)))
              (fst (rand_step libc (snd (rand_step libc (rng s))))) Hv)
    as (_ & Hn & _).
  set (l := decide_locals _ _ _ _ _ _) in *.
  pose proof (Rabs_le_norm (l_dx l) (l_dy l)) as Hx.
  pose proof (Rabs_le_norm (l_dy l) (l_dx l)) as Hy.
  rewrite (Rplus_comm (l_dy l * l_dy l)) in Hy.
  split; apply Rabs_le_bounds; lra.
Qed.

Lemma decide_noise_scale_bounds :
  (0 <= noise default_config)%R ->
  (0 <= decide_noise_scale default_config <= noise default_config)%R /\
  (decide_noise_scale default_config <= 100 * exp (- 1))%R.
Proof.
  intros Hn. unfold decide_noise_scale.
  cbn [f_mul f_neg f_exp f_centi R_float R_libm].
  set (x := noise default_config) in *.
  pose proof (exp_pos (- x * (1 / 100))) as Hp.
  pose proof (exp_nonpos_le_1 (- x * (1 / 100))) as H1.
  pose proof (decay_peak x) as Hd.
  split; [|exact Hd]. split; nra.
Qed.

(** X6.  For a non-negative configured noise the noise scale [nca_act] uses
    is between 0 and the configured noise and never above [100 / e], the
    value it takes at [noise = 100]: a larger configured noise does not give
    a larger scale. *)
Theorem nca_act_noise_scale_bounds input s :
  wf_state net s ->
  length input = NCA_INPUT_SIZE net ->
  2 <= NCA_OUTPUT_SIZE net ->
  (0 <= noise default_config)%R ->
  exists l s',
    nca_act_body net default_config libc input s = Some (l, s') /\
    (0 <= l_noise_scale l <= noise default_config)%R /\
    (l_noise_scale l <= 100 * exp (- 1))%R /\
    (noise default_config = 100%R -> l_noise_scale l = (100 * exp (- 1))%R).
Proof.
  intros Hs Hin Hout Hn.
  eexists _, _. split; [apply nca_act_body_correct; assumption|].
  cbn [l_noise_scale decide_locals].
  destruct (decide_noise_scale_bounds Hn) as [Hb Hp].
  split; [exact Hb|]. split; [exact Hp|].
  intros H100. unfold decide_noise_scale.
  cbn [f_mul f_neg f_exp f_centi R_float R_libm]. rewrite H100.
  f_equal. f_equal. lra.
Qed.

(** X7.  When [rand()] returns samples in [[0, RAND_MAX]], the noise added
    to each axis is at most half the noise scale in absolute value, so at
    most half the configured noise. *)
Theorem nca_act_perturbation input s :
  wf_state net s ->
  length input = NCA_INPUT_SIZE net ->
  2 <= NCA_OUTPUT_SIZE net ->
  (0 <= noise default_config)%R ->
  (0 < RAND_MAX libc)%Z ->
  (forall g, 0 <= fst (rand_step libc g) <= RAND_MAX libc)%Z ->
  exists l s',
    nca_act_body net default_config libc input s = Some (l, s') /\
    (Rabs (l_dx0 l - output_val net input 0 * speed default_config)
     <= l_noise_scale l / 2)%R /\
    (Rabs (l_dy0 l - output_val net input 1 * speed default_config)
     <= l_noise_scale l / 2)%R /\
    (l_noise_scale l / 2 <= noise default_config / 2)%R.
Proof.
  intros Hs Hin Hout Hn Hmax Hr.
  eexists _, _. split; [apply nca_act_body_correct; assumption|].
  cbn [l_noise_scale l_dx0 l_dy0 decide_locals].
  destruct (decide_noise_scale_bounds Hn) as [Hb _].
  assert (Hax : forall o g,
    (Rabs (decide_axis default_config libc o (fst (rand_step libc g))
           - o * speed default_config)
     <= decide_noise_scale default_config / 2)%R).
  { intros o g. unfold decide_axis.
    cbn [f_add f_sub f_mul f_div f_of_int f_half R_float].
    specialize (Hr g). set (r := fst (rand_step libc g)) in *.
    assert (H0 : (0 <= IZR r)%R) by (apply IZR_le; lia).
    assert (H1 : (IZR r <= IZR (RAND_MAX libc))%R) by (apply IZR_le; lia).
    assert (Hm : (0 < IZR (RAND_MAX libc))%R) by (apply IZR_lt; lia).
    assert (Hi : (0 < / IZR (RAND_MAX libc))%R) by apply Rinv_0_lt_compat, Hm.
    assert (Hu : (0 <= IZR r / IZR (RAND_MAX libc) <= 1)%R).
    { unfold Rdiv. split; [nra|].
      assert (IZR r * / IZR (RAND_MAX libc)
              <= IZR (RAND_MAX libc) * / IZR (RAND_MAX libc))%R
        by (apply Rmult_le_compat_r; lra).
      rewrite Rinv_r in H by lra. exact H. }
    set (u := (IZR r / IZR (RAND_MAX libc))%R) in *.
    set (ns := decide_noise_scale default_config) in *.
    apply Rabs_le. split; nra. }
  split; [apply Hax|]. split; [apply Hax|]. lra.
Qed.

Lemma fold_left_pointwise {A B} (f g : A -> B -> A) (l : list B) :
  (forall a x, f a x = g a x) ->
  forall a, fold_left f l a = fold_left g l a.
Proof.
  intros Hfg. induction l as [|x l IH]; intros a; [reflexivity|].
  cbn. rewrite Hfg. apply IH.
Qed.

Lemma sum_from_zero_terms (b : R) (w : nat -> R) n :
  sum_from b (fun i => (0 * w i)%R) n = b.
Proof.
  unfold sum_from. generalize 0 at 1. revert b.
  induction n as [|n IH]; intros b i; [reflexivity|].
  cbn [seq fold_left f_add R_float]. rewrite Rmult_0_l, Rplus_0_r. apply IH.
Qed.

Lemma nth_replicate_zero (n i : nat) : nth i (replicate n 0%R) 0%R = 0%R.
Proof.
  revert i. induction n as [|n IH]; intros [|i]; cbn; try reflexivity. apply IH.
Qed.

(** X8.  On the all-zero input the network returns, for each output [k],
    [tanh (b2[k] + sum_j tanh (b1[j]) * w2[j][k])]: the first weight table
    does not enter the result. *)
Theorem nca_forward_zero_input output s :
  wf_state net s ->
  length output = NCA_OUTPUT_SIZE net ->
  exists s',
    nca_forward net libc (replicate (NCA_INPUT_SIZE net) 0%R) output s
    = Some (map (fun k => tanh (sum_from (b2 net k)
                                  (fun j => (tanh (b1 net j) * w2 net j k)%R)
                                  (NCA_HIDDEN_SIZE net)))
              (seq 0 (NCA_OUTPUT_SIZE net)), s').
Proof.
  intros Hs Hout. eexists.
  rewrite nca_forward_correct;
    [|exact Hs|apply length_replicate|exact Hout].
  f_equal. f_equal. unfold forward. apply map_ext. intros k.
  unfold output_val. cbn [f_tanh R_libm]. f_equal.
  unfold sum_from. apply fold_left_pointwise. intros acc j.
  cbn [f_add f_mul R_float]. f_equal. f_equal.
  unfold hidden_val. cbn [f_tanh R_libm]. f_equal.
  etransitivity;
    [|apply (sum_from_zero_terms (b1 net j) (fun i => w1 net i j)
               (NCA_INPUT_SIZE net))].
  unfold sum_from. apply fold_left_pointwise. intros a i.
  cbn [f_add f_mul f_zero R_float]. now rewrite nth_replicate_zero.
Qed.
End AgentEdges.

(** ** Runs of the control loop, and seeding *)

(** [void nca_init()]: [srand(esp_random())].  [srand] of [stdlib.h] maps a
    seed to a generator state; the value [esp_random()] returned, read from
    the hardware entropy source, is the argument [entropy].  The static
    buffers are not touched. *)
Definition nca_init {F : Type} (libc : RandomSource)
    (srand : Z -> rng_state libc) (entropy : Z) : M (State F libc) unit :=
  fun s => Some (tt, {| hidden := hidden s; output_buf := output_buf s;
                        rng := srand entropy; rand_calls := rand_calls s |}).

(** A network with a single output, on which [nca_act] cannot run. *)
Definition demo_narrow_net : NetworkParameters R := {|
  NCA_INPUT_SIZE := 2;
  NCA_HIDDEN_SIZE := 3;
  NCA_OUTPUT_SIZE := 1;
  w1 := w1 Demo.net;
  b1 := b1 Demo.net;
  w2 := w2 Demo.net;
  b2 := b2 Demo.net
|}.

Definition demo_narrow_boot : State R Demo.libc :=
  Build_State (libc := Demo.libc) [0; 0; 0]%R [0%R] 1%Z 0.

Section AgentRuns.
Context {F : Type} {HF : CFloat F} {HL : CLibm F}.
Variable net : NetworkParameters F.
Variable default_config : AgentConfig F.
Variable libc : RandomSource.
Implicit Types (s : State F libc) (input : list F) (inputs : list (list F)).

(** X9.  [nca_act] reads [output[0]] and [output[1]] of a local array of
    [NCA_OUTPUT_SIZE] cells: it returns a command when the network has at
    least two outputs and reads outside the array when it has fewer. *)
Theorem nca_act_output_cells input s :
  wf_state net s ->
  length input = NCA_INPUT_SIZE net ->
  (2 <= NCA_OUTPUT_SIZE net ->
   exists cmd s', nca_act net default_config libc input s = Some (cmd, s')) /\
  (NCA_OUTPUT_SIZE net < 2 ->
   nca_act net default_config libc input s = None).
Proof.
  intros Hs Hin. split; intros Hout.
  - rewrite nca_act_correct by assumption. eexists _, _. reflexivity.
  - apply nca_act_needs_two_outputs; assumption.
Qed.


(** X11.  A run of [n] ticks on inputs of the right size returns [n]
    results and calls [rand()] exactly [2 n] times; afterwards the static
    buffers hold the activations and the raw output of the last input. *)
Theorem run_ticks_draws inputs :
  forall s,
    wf_state net s ->
    Forall (fun input => length input = NCA_INPUT_SIZE net) inputs ->
    2 <= NCA_OUTPUT_SIZE net ->
    exists ls s',
      run_ticks net default_config libc inputs s = Some (ls, s') /\
      length ls = length inputs /\
      rand_calls s' = (2 * length inputs + rand_calls s)%nat /\
      wf_state net s' /\
      (forall input, last inputs = Some input ->
         hidden s' = map (hidden_val net input) (seq 0 (NCA_HIDDEN_SIZE net)) /\
         output_buf s' = forward net input).
Proof.
  induction inputs as [|input rest IH]; intros s Hs Hall Hout.
  - exists [], s. split; [reflexivity|]. split; [reflexivity|].
    split; [reflexivity|]. split; [exact Hs|]. intros input Hl. discriminate.
  - apply Forall_cons in Hall as [Hin Hrest].
    destruct (IH (after_rand 2 (after_forward net libc input s)))
      as (ls & s' & Hrun & Hlen & Hcalls & Hwf & Hlast);
      [apply wf_after_rand, wf_after_forward|exact Hrest|exact Hout|].
    cbn [run_ticks]. unfold bind at 1.
    rewrite nca_act_body_correct by assumption.
    unfold bind at 1. rewrite Hrun. unfold ret.
    eexists _, _. split; [reflexivity|].
    split; [cbn [length]; now rewrite Hlen|].
    split; [rewrite Hcalls, rand_calls_after_rand; cbn; lia|].
    split; [exact Hwf|].
    intros input' Hl. destruct rest as [|input2 rest'].
    + cbn in Hl. injection Hl as Hl. subst input'.
      cbn [run_ticks] in Hrun. unfold ret in Hrun.
      injection Hrun as _ Hs'. subst s'. split; reflexivity.
    + apply Hlast. exact Hl.
Qed.

(** Two machines whose generators are in the same state run alike. *)
Lemma run_ticks_same_rng inputs :
  forall s1 s2,
    wf_state net s1 ->
    wf_state net s2 ->
    rng s1 = rng s2 ->
    Forall (fun input => length input = NCA_INPUT_SIZE net) inputs ->
    2 <= NCA_OUTPUT_SIZE net ->
    exists ls s1' s2',
      run_ticks net default_config libc inputs s1 = Some (ls, s1') /\
      run_ticks net default_config libc inputs s2 = Some (ls, s2') /\
      rng s1' = rng s2'.
Proof.
  induction inputs as [|input rest IH]; intros s1 s2 Hs1 Hs2 Hrng Hall Hout.
  - exists [], s1, s2. repeat split. exact Hrng.
  - apply Forall_cons in Hall as [Hin Hrest].
    destruct (IH (after_rand 2 (after_forward net libc input s1))
                 (after_rand 2 (after_forward net libc input s2)))
      as (ls & s1' & s2' & Hrun1 & Hrun2 & Hrng');
      [apply wf_after_rand, wf_after_forward
      |apply wf_after_rand, wf_after_forward
      |cbn; now rewrite Hrng|exact Hrest|exact Hout|].
    cbn [run_ticks]. unfold bind at 1 3.
    rewrite !nca_act_body_correct by assumption.
    unfold bind at 1 2. rewrite Hrun1, Hrun2. unfold ret. rewrite Hrng.
    eexists _, _, _. repeat split. exact Hrng'.
Qed.

(** X12.  After [nca_init] with the same entropy value, two machines return
    the same results tick by tick on the same inputs, whatever their static
    buffers held and wherever their generators stood before. *)
Theorem nca_init_reproducible (srand : Z -> rng_state libc) (entropy : Z)
    inputs s1 s2 :
  wf_state net s1 ->
  wf_state net s2 ->
  Forall (fun input => length input = NCA_INPUT_SIZE net) inputs ->
  2 <= NCA_OUTPUT_SIZE net ->
  exists ls s1' s2',
    (nca_init libc srand entropy ;;;
     run_ticks net default_config libc inputs) s1 = Some (ls, s1') /\
    (nca_init libc srand entropy ;;;
     run_ticks net default_config libc inputs) s2 = Some (ls, s2') /\
    rng s1' = rng s2'.
Proof.
  intros Hs1 Hs2 Hall Hout. unfold bind, nca_init.
  apply run_ticks_same_rng; try assumption; reflexivity.
Qed.
End AgentRuns.

(** * Further properties of the proximity model *)

Section ProximityMore.
Context {F : Type} {HF : CFloat F}.
Implicit Types (distances : list F) (range_threshold : F).

(** X13.  [nca_get_neighbor_count] looks at the first [max_neighbors]
    entries only: it counts among them when the array has that many, reads
    outside the array when it has fewer, and returns 0 without reading
    anything when [max_neighbors] is zero or negative. *)
Theorem nca_get_neighbor_count_window distances (max_neighbors : Z)
    range_threshold :
  ((max_neighbors <= Z.of_nat (length distances))%Z ->
   nca_get_neighbor_count distances max_neighbors range_threshold
   = Some (Z.of_nat (length
             (List.filter (fun d => f_lt d range_threshold)
                (take (Z.to_nat max_neighbors) distances))))) /\
  ((Z.of_nat (length distances) < max_neighbors)%Z ->
   nca_get_neighbor_count distances max_neighbors range_threshold = None) /\
  ((max_neighbors <= 0)%Z ->
   nca_get_neighbor_count distances max_neighbors range_threshold = Some 0%Z).
Proof.
  unfold nca_get_neighbor_count. split; [|split].
  - intros Hle. rewrite count_loop_spec by lia. now rewrite drop_0.
  - intros Hlt. apply count_loop_out_of_bounds; lia.
  - intros Hle. replace (Z.to_nat max_neighbors) with 0 by lia. reflexivity.
Qed.

(** X14.  Counting over two arrays put end to end gives the sum of the two
    counts. *)
Theorem nca_get_neighbor_count_app (distances1 distances2 : list F)
    range_threshold :
  exists count1 count2,
    nca_get_neighbor_count distances1 (Z.of_nat (length distances1))
      range_threshold = Some count1 /\
    nca_get_neighbor_count distances2 (Z.of_nat (length distances2))
      range_threshold = Some count2 /\
    nca_get_neighbor_count (distances1 ++ distances2)
      (Z.of_nat (length distances1) + Z.of_nat (length distances2))
      range_threshold = Some (count1 + count2)%Z.
Proof.
  eexists _, _.
  split; [apply nca_get_neighbor_count_whole|].
  split; [apply nca_get_neighbor_count_whole|].
  rewrite <- Nat2Z.inj_add, <- length_app, nca_get_neighbor_count_whole.
  rewrite List.filter_app, length_app, Nat2Z.inj_add. reflexivity.
Qed.
End ProximityMore.

Lemma filter_length_mono {A} (f g : A -> bool) (l : list A) :
  (forall x, f x = true -> g x = true) ->
  length (List.filter f l) <= length (List.filter g l).
Proof.
  intros Hfg. induction l as [|x l IH]; [reflexivity|]. cbn.
  destruct (f x) eqn:Ef.
  - rewrite (Hfg x Ef). cbn. lia.
  - destruct (g x); cbn; lia.
Qed.

(** X15.  Over the reals the count does not decrease when the threshold
    grows, and it is at most the number of entries. *)
Theorem nca_get_neighbor_count_threshold (distances : list R) (t1 t2 : R) :
  (t1 <= t2)%R ->
  exists c1 c2,
    nca_get_neighbor_count distances (Z.of_nat (length distances)) t1
    = Some c1 /\
    nca_get_neighbor_count distances (Z.of_nat (length distances)) t2
    = Some c2 /\
    (0 <= c1 <= c2)%Z /\ (c2 <= Z.of_nat (length distances))%Z.
Proof.
  intros Ht. eexists _, _.
  split; [apply nca_get_neighbor_count_whole|].
  split; [apply nca_get_neighbor_count_whole|].
  pose proof (filter_length_mono (fun d => f_lt d t1) (fun d => f_lt d t2)
                distances) as Hm.
  split; [split; [lia|]|apply Nat2Z.inj_le, List.filter_length_le].
  apply Nat2Z.inj_le, Hm. intros d Hd. cbn [f_lt R_float] in *.
  apply Rltb_true in Hd. apply Rltb_true. lra.
Qed.

Lemma SFltb_nan_l (x : spec_float) : SFltb S754_nan x = false.
Proof. reflexivity. Qed.

Lemma SFltb_nan_r (x : spec_float) : SFltb x S754_nan = false.
Proof. destruct x; reflexivity. Qed.

Lemma filter_none {A} (f : A -> bool) (l : list A) :
  (forall x, f x = false) -> List.filter f l = [].
Proof.
  intros Hf. induction l as [|x l IH]; [reflexivity|].
  cbn. now rewrite Hf.
Qed.

(** X16.  In binary32 a NaN never makes a neighbour: with a NaN threshold
    the count is 0 whatever the distances, and NaN entries in the array do
    not change the count. *)
Theorem nca_get_neighbor_count_nan (before after : list spec_float)
    (range_threshold : spec_float) :
  nca_get_neighbor_count (before ++ after)
    (Z.of_nat (length (before ++ after))) S754_nan = Some 0%Z /\
  nca_get_neighbor_count (before ++ S754_nan :: after)
    (Z.of_nat (length (before ++ S754_nan :: after))) range_threshold
  = nca_get_neighbor_count (before ++ after)
      (Z.of_nat (length (before ++ after))) range_threshold.
Proof.
  rewrite !nca_get_neighbor_count_whole. split.
  - rewrite filter_none; [reflexivity|]. intros d. apply SFltb_nan_r.
  - rewrite !List.filter_app. cbn [List.filter f_lt b32_float].
    rewrite SFltb_nan_l. reflexivity.
Qed.

Lemma nca_rssi_positive_iff (d m : R) :
  (0 < m)%R -> Rltb 0 (nca_rssi d m) = Rltb d m.
Proof.
  intros Hm. assert (Hi : (0 < / m)%R) by apply Rinv_0_lt_compat, Hm.
  destruct (Rle_or_lt d m) as [Hle|Hgt].
  - rewrite nca_rssi_R_near by exact Hle.
    assert (Hq : (d * / m <= m * / m)%R)
      by (apply Rmult_le_compat_r; lra).
    rewrite Rinv_r in Hq by lra.
    destruct Hle as [Hlt|Heq].
    + assert (Hq' : (d * / m < m * / m)%R)
        by (apply Rmult_lt_compat_r; lra).
      rewrite Rinv_r in Hq' by lra.
      rewrite (proj2 (Rltb_true d m)) by exact Hlt.
      apply Rltb_true. unfold Rdiv. lra.
    + subst d. rewrite Rltb_irrefl. apply Rltb_false.
      unfold Rdiv. rewrite Rinv_r by lra. lra.
  - rewrite nca_rssi_R_far by lra.
    rewrite Rltb_irrefl. symmetry. apply Rltb_false. lra.
Qed.

(** X17.  Over the reals, with a positive threshold, the neighbours counted
    are exactly the entries whose signal strength at that maximum distance
    is positive. *)
Theorem nca_get_neighbor_count_rssi (distances : list R) (range_threshold : R) :
  (0 < range_threshold)%R ->
  nca_get_neighbor_count distances (Z.of_nat (length distances)) range_threshold
  = Some (Z.of_nat (length
            (List.filter (fun d => f_lt 0%R (nca_rssi d range_threshold))
               distances))).
Proof.
  intros Ht. rewrite nca_get_neighbor_count_whole. do 3 f_equal.
  apply List.filter_ext. intros d. symmetry.
  apply (nca_rssi_positive_iff d range_threshold Ht).
Qed.

(** X18.  Over the reals the signal strength does not depend on the unit of
    length: scaling the distance and a non-zero maximum by the same positive
    factor leaves it unchanged. *)
Theorem nca_rssi_scale (k d m : R) :
  (0 < k)%R ->
  m <> 0%R ->
  nca_rssi (k * d)%R (k * m)%R = nca_rssi d m.
Proof.
  intros Hk Hm. destruct (Rle_or_lt d m) as [Hle|Hgt].
  - rewrite !nca_rssi_R_near by nra. f_equal. field. lra.
  - rewrite !nca_rssi_R_far by nra. reflexivity.
Qed.

(** X19.  Over the reals, for a positive maximum distance, the signal
    strength is 1 at distance 0, strictly decreasing up to the maximum and 0
    exactly from the maximum on. *)
Theorem nca_rssi_profile (m : R) :
  (0 < m)%R ->
  nca_rssi 0%R m = 1%R /\
  (forall d1 d2 : R,
      (d1 < d2 <= m)%R -> (nca_rssi d2 m < nca_rssi d1 m)%R) /\
  (forall d : R, nca_rssi d m = 0%R <-> (m <= d)%R).
Proof.
  intros Hm. assert (Hi : (0 < / m)%R) by apply Rinv_0_lt_compat, Hm.
  split; [|split].
  - rewrite nca_rssi_R_near by lra. unfold Rdiv. lra.
  - intros d1 d2 [H12 H2]. rewrite !nca_rssi_R_near by lra.
    assert (d1 * / m < d2 * / m)%R by (apply Rmult_lt_compat_r; lra).
    unfold Rdiv. lra.
  - intros d. pose proof (nca_rssi_positive_iff d m Hm) as Hp. split.
    + intros H0. rewrite H0, Rltb_irrefl in Hp. symmetry in Hp.
      apply Rltb_false in Hp. exact Hp.
    + intros Hge. destruct (Rle_or_lt d m) as [Hle|Hgt].
      * assert (d = m) by lra. subst d.
        rewrite nca_rssi_R_near by lra. unfold Rdiv.
        rewrite Rinv_r by lra. lra.
      * apply nca_rssi_R_far. lra.
Qed.

(** X20.  In binary32 [nca_rssi] passes a NaN on: with a NaN distance or a
    NaN maximum the result is NaN, not 0; and an infinite distance gives 0
    for every finite maximum. *)
Theorem nca_rssi_nan (x : spec_float) :
  nca_rssi S754_nan x = S754_nan /\
  nca_rssi x S754_nan = S754_nan /\
  (B32.finite x = true -> nca_rssi (S754_infinity false) x = S754_zero false).
Proof.
  unfold nca_rssi, f_gt. cbn [f_lt f_sub f_div f_one f_zero b32_float].
  rewrite SFltb_nan_l, SFltb_nan_r. split; [reflexivity|]. split.
  - destruct x; reflexivity.
  - destruct x as [s|s| |s m e]; try discriminate; intros _; reflexivity.
Qed.

(** * The serial line of the two test firmwares (hardware_test) *)

(** [stm32_wire_check.c] and [stm32_self_test.c] receive their commands the
    same way: bytes from the UART are collected in [g_rx_buffer] until a
    carriage return or a line feed arrives. *)

Module Uart.
Definition RX_BUFFER_SIZE : Z := 64.

Definition NUL : ascii := "000"%char.
Definition CR : ascii := "013"%char.
Definition LF : ascii := "010"%char.

(** [char g_rx_buffer[RX_BUFFER_SIZE]; uint8_t g_rx_index;] *)
Record RxState : Type := {
  g_rx_buffer : list ascii;
  g_rx_index : Z
}.

Definition wf (st : RxState) : Prop :=
  length (g_rx_buffer st) = 64 /\ (0 <= g_rx_index st <= 63)%Z.

(** A [char] array read as a C string: the characters before the first
    NUL; [None] when the array holds no NUL, where C reads on past its
    end. *)
Fixpoint c_string (buf : list ascii) : option (list ascii) :=
  match buf with
  | [] => None
  | c :: rest =>
      if Ascii.eqb c NUL then Some []
      else match c_string rest with
           | Some str => Some (c :: str)
           | None => None
           end
  end.

(** The characters of a sequence before its first NUL. *)
Fixpoint until_nul (l : list ascii) : list ascii :=
  match l with
  | [] => []
  | c :: rest => if Ascii.eqb c NUL then [] else c :: until_nul rest
  end.

(** [buf[i] = c]; [None] outside the array. *)
Definition put (buf : list ascii) (i : Z) (c : ascii) : option (list ascii) :=
  if ((0 <=? i) && (i <? Z.of_nat (length buf)))%Z
  then Some (<[Z.to_nat i := c]> buf)
  else None.

(** [ch == '\r' || ch == '\n'] *)
Definition is_eol (ch : ascii) : bool := Ascii.eqb ch CR || Ascii.eqb ch LF.

(** What the firmware does with one received byte: the new buffer and
    index, and the command line handed to the command processor, if any.
    The index is reset after the command has been processed. *)
Definition rx_char (ch : ascii) (st : RxState)
    : option (RxState * option (list ascii)) :=
  if is_eol ch then
    if (0 <? g_rx_index st)%Z then
      match put (g_rx_buffer st) (g_rx_index st) NUL with
      | Some buf =>
          match c_string buf with
          | Some cmd =>
              Some ({| g_rx_buffer := buf; g_rx_index := 0 |}, Some cmd)
          | None => None
          end
      | None => None
      end
    else Some (st, None)
  else if (g_rx_index st <? RX_BUFFER_SIZE - 1)%Z then
    match put (g_rx_buffer st) (g_rx_index st) ch with
    | Some buf =>
        Some ({| g_rx_buffer := buf;
                 g_rx_index := ((g_rx_index st + 1) mod 256)%Z |}, None)
    | None => None
    end
  else Some (st, None).

(** The bytes the UART delivers, in order; the command lines processed on
    the way are collected. *)
Fixpoint rx_chars (chs : list ascii) (st : RxState)
    : option (RxState * list (list ascii)) :=
  match chs with
  | [] => Some (st, [])
  | ch :: rest =>
      match rx_char ch st with
      | Some (st', out) =>
          match rx_chars rest st' with
          | Some (st'', outs) =>
              Some (st'', match out with
                          | Some cmd => cmd :: outs
                          | None => outs
                          end)
          | None => None
          end
      | None => None
      end
  end.
End Uart.

Lemma c_string_nul_at (buf : list ascii) :
  forall i, buf !! i = Some Uart.NUL ->
    exists str, Uart.c_string buf = Some str /\ length str <= i.
Proof.
  induction buf as [|c rest IH]; intros i Hi; [discriminate|].
  cbn [Uart.c_string]. destruct (Ascii.eqb_spec c Uart.NUL) as [->|Hc].
  - exists []. split; [reflexivity|cbn; lia].
  - destruct i as [|i]; [cbn in Hi; congruence|].
    destruct (IH i Hi) as (str & -> & Hlen).
    exists (c :: str). split; [reflexivity|cbn; lia].
Qed.

Lemma c_string_app_nul (p rest : list ascii) :
  Uart.c_string (p ++ Uart.NUL :: rest) = Some (Uart.until_nul p).
Proof.
  induction p as [|c p IH]; [reflexivity|].
  cbn [app Uart.c_string Uart.until_nul].
  destruct (Ascii.eqb c Uart.NUL); [reflexivity|]. now rewrite IH.
Qed.

Lemma put_in_range (buf : list ascii) (i : nat) (c : ascii) :
  i < length buf ->
  Uart.put buf (Z.of_nat i) c = Some (<[i := c]> buf).
Proof.
  intros Hi. unfold Uart.put.
  destruct (Z.leb_spec 0 (Z.of_nat i)); [|lia].
  destruct (Z.ltb_spec (Z.of_nat i) (Z.of_nat (length buf))); [|lia].
  cbn. now rewrite Nat2Z.id.
Qed.

Lemma rx_char_wf (ch : ascii) (st : Uart.RxState) :
  Uart.wf st ->
  exists st' out,
    Uart.rx_char ch st = Some (st', out) /\ Uart.wf st' /\
    (forall cmd, out = Some cmd -> length cmd <= 63).
Proof.
  intros [Hlen Hidx]. unfold Uart.rx_char.
  assert (Hput : forall c,
    Uart.put (Uart.g_rx_buffer st) (Uart.g_rx_index st) c
    = Some (<[Z.to_nat (Uart.g_rx_index st) := c]> (Uart.g_rx_buffer st))).
  { intros c. rewrite <- (Z2Nat.id (Uart.g_rx_index st)) at 1 by lia.
    apply put_in_range. lia. }
  destruct (Uart.is_eol ch).
  - destruct (Z.ltb_spec 0 (Uart.g_rx_index st)).
    + rewrite Hput.
      destruct (c_string_nul_at
                  (<[Z.to_nat (Uart.g_rx_index st) := Uart.NUL]>
                     (Uart.g_rx_buffer st))
                  (Z.to_nat (Uart.g_rx_index st))) as (str & -> & Hs).
      { apply list_lookup_insert_eq. lia. }
      eexists _, _. split; [reflexivity|]. split.
      * split; cbn; [rewrite length_insert; exact Hlen|lia].
      * intros cmd [= <-]. lia.
    + eexists _, _. split; [reflexivity|]. split; [split; assumption|].
      discriminate.
  - unfold Uart.RX_BUFFER_SIZE.
    destruct (Z.ltb_spec (Uart.g_rx_index st) (64 - 1)).
    + rewrite Hput. eexists _, _. split; [reflexivity|]. split.
      * split; cbn; [rewrite length_insert; exact Hlen|].
        rewrite Z.mod_small by lia. lia.
      * discriminate.
    + eexists _, _. split; [reflexivity|]. split; [split; assumption|].
      discriminate.
Qed.

(** X21.  Whatever bytes arrive, the receiver never writes outside
    [g_rx_buffer]: the index stays between 0 and 63, the terminating NUL
    lands inside the 64 cells, and every command line handed over has at most
    63 characters. *)
Theorem rx_chars_in_bounds (chs : list ascii) :
  forall st : Uart.RxState,
    Uart.wf st ->
    exists st' cmds,
      Uart.rx_chars chs st = Some (st', cmds) /\
      Uart.wf st' /\
      Forall (fun cmd => length cmd <= 63) cmds.
Proof.
  induction chs as [|ch rest IH]; intros st Hst.
  - exists st, []. repeat split; try apply Hst. constructor.
  - destruct (rx_char_wf ch st Hst) as (st1 & out & Hch & Hwf1 & Hout).
    destruct (IH st1 Hwf1) as (st2 & cmds & Hrest & Hwf2 & Hcmds).
    cbn [Uart.rx_chars]. rewrite Hch, Hrest.
    eexists _, _. split; [reflexivity|]. split; [exact Hwf2|].
    destruct out as [cmd|]; [|exact Hcmds].
    constructor; [apply Hout; reflexivity|exact Hcmds].
Qed.

Lemma rx_chars_app (a b : list ascii) :
  forall st,
    Uart.rx_chars (a ++ b) st
    = match Uart.rx_chars a st with
      | Some (st1, cmds1) =>
          match Uart.rx_chars b st1 with
          | Some (st2, cmds2) => Some (st2, cmds1 ++ cmds2)
          | None => None
          end
      | None => None
      end.
Proof.
  induction a as [|ch a IH]; intros st.
  - cbn. destruct (Uart.rx_chars b st) as [[st2 cmds2]|]; reflexivity.
  - cbn [app Uart.rx_chars].
    destruct (Uart.rx_char ch st) as [[st' out]|]; [|reflexivity].
    rewrite IH. destruct (Uart.rx_chars a st') as [[st1 cmds1]|]; [|reflexivity].
    destruct (Uart.rx_chars b st1) as [[st2 cmds2]|]; [|reflexivity].
    destruct out; reflexivity.
Qed.

(** Characters other than CR and LF fill the buffer up to cell 62; what
    comes after is dropped. *)
Lemma rx_store_run (line : list ascii) :
  Forall (fun c => Uart.is_eol c = false) line ->
  forall pre suf,
    length (pre ++ suf) = 64 ->
    length pre <= 63 ->
    Uart.rx_chars line
      {| Uart.g_rx_buffer := pre ++ suf;
         Uart.g_rx_index := Z.of_nat (length pre) |}
    = Some ({| Uart.g_rx_buffer :=
                 pre ++ take (63 - length pre) line
                 ++ drop (min (length line) (63 - length pre)) suf;
               Uart.g_rx_index :=
                 Z.of_nat (min 63 (length pre + length line)) |}, []).
Proof.
  induction 1 as [|c l Hc Hl IH]; intros pre suf Hlen Hpre.
  - cbn [Uart.rx_chars length]. rewrite take_nil, Nat.min_0_l, drop_0.
    rewrite Nat.add_0_r, Nat.min_r by lia. reflexivity.
  - cbn [Uart.rx_chars]. unfold Uart.rx_char. rewrite Hc.
    cbn [Uart.g_rx_index Uart.g_rx_buffer]. unfold Uart.RX_BUFFER_SIZE.
    destruct (Z.ltb_spec (Z.of_nat (length pre)) (64 - 1)) as [Hlt|Hge].
    + rewrite length_app in Hlen.
      destruct suf as [|x suf']; [cbn in Hlen; lia|].
      rewrite put_in_range by (rewrite length_app; cbn; lia).
      rewrite insert_app_r_alt, Nat.sub_diag by lia.
      change (<[0:=c]> (x :: suf')) with (c :: suf').
      rewrite Z.mod_small by lia.
      replace (Z.of_nat (length pre) + 1)%Z
        with (Z.of_nat (length (pre ++ [c])))
        by (rewrite length_app; cbn; lia).
      replace (pre ++ c :: suf') with ((pre ++ [c]) ++ suf')
        by (now rewrite <- app_assoc).
      rewrite IH;
        [|rewrite !length_app in *; cbn in *; lia|rewrite length_app; cbn; lia].
      rewrite length_app. cbn [length].
      replace (63 - length pre) with (S (63 - (length pre + 1))) by lia.
      cbn [take]. rewrite <- Nat.succ_min_distr. cbn [drop].
      rewrite <- !app_assoc. cbn [app].
      replace (length pre + 1 + length l) with (length pre + S (length l))
        by lia.
      reflexivity.
    + assert (Hp : length pre = 63) by lia.
      specialize (IH pre suf Hlen Hpre). rewrite IH.
      rewrite Hp. cbn [Nat.sub take]. rewrite !Nat.min_0_r.
      rewrite !Nat.min_l by lia. reflexivity.
Qed.

Lemma rx_eols_idle (eols : list ascii) (st : Uart.RxState) :
  Forall (fun c => Uart.is_eol c = true) eols ->
  Uart.g_rx_index st = 0%Z ->
  Uart.rx_chars eols st = Some (st, []).
Proof.
  induction 1 as [|c l Hc Hl IH]; intros Hidx; [reflexivity|].
  cbn [Uart.rx_chars]. unfold Uart.rx_char. rewrite Hc, Hidx.
  cbn. rewrite IH by exact Hidx. reflexivity.
Qed.

Lemma until_nul_plain (l : list ascii) :
  Forall (fun c => c <> Uart.NUL) l -> Uart.until_nul l = l.
Proof.
  induction 1 as [|c l Hc Hl IH]; [reflexivity|].
  cbn. destruct (Ascii.eqb_spec c Uart.NUL); [contradiction|]. now rewrite IH.
Qed.

(** One line: characters, then at least one CR or LF. *)
Lemma rx_one_line (line eols : list ascii) (ch : ascii) (st : Uart.RxState) :
  Uart.wf st ->
  Uart.g_rx_index st = 0%Z ->
  0 < length line ->
  Forall (fun c => Uart.is_eol c = false) line ->
  Forall (fun c => Uart.is_eol c = true) (ch :: eols) ->
  exists st',
    Uart.rx_chars (line ++ ch :: eols) st
    = Some (st', [Uart.until_nul (take 63 line)]) /\
    Uart.wf st' /\ Uart.g_rx_index st' = 0%Z.
Proof.
  intros [Hlen _] Hidx Hline Hchars Heols.
  apply Forall_cons in Heols as [Hch Heols].
  destruct st as [buf idx]. cbn in Hlen, Hidx. subst idx.
  rewrite rx_chars_app.
  pose proof (rx_store_run line Hchars [] buf Hlen (Nat.le_0_l 63)) as Hrun.
  cbn [length app Nat.add] in Hrun. rewrite Nat.sub_0_r in Hrun.
  change (Z.of_nat 0) with 0%Z in Hrun. rewrite Hrun. clear Hrun.
  set (k := min (length line) 63).
  replace (min 63 (length line)) with k by (unfold k; lia).
  assert (Hk : 0 < k <= 63) by (unfold k; lia).
  assert (Htk : length (take 63 line) = k)
    by (rewrite length_take; unfold k; lia).
  destruct (drop k buf) as [|x rest] eqn:Hd.
  { apply (f_equal length) in Hd. rewrite length_drop in Hd. cbn in Hd. lia. }
  cbn [Uart.rx_chars]. unfold Uart.rx_char at 1. rewrite Hch.
  cbn [Uart.g_rx_index Uart.g_rx_buffer].
  destruct (Z.ltb_spec 0 (Z.of_nat k)); [|lia].
  assert (Hbl : length (take 63 line ++ x :: rest) = 64).
  { rewrite length_app, Htk. apply (f_equal length) in Hd.
    rewrite length_drop in Hd. cbn in *. lia. }
  rewrite put_in_range by lia.
  rewrite insert_app_r_alt by lia. rewrite Htk, Nat.sub_diag.
  change (<[0:=Uart.NUL]> (x :: rest)) with (Uart.NUL :: rest).
  rewrite c_string_app_nul.
  rewrite rx_eols_idle by (exact Heols || reflexivity).
  eexists. split; [reflexivity|]. split; [|reflexivity].
  split; cbn; [|lia].
  rewrite length_app in *. cbn in *. exact Hbl.
Qed.

(** X22.  Lines that end in CR LF are handed over one by one, each exactly
    once: per line the command is its first 63 characters, cut at the first
    NUL byte if there is one.  A line of at most 63 characters without NUL
    is handed over as it is. *)
Theorem rx_chars_lines (lines : list (list ascii)) :
  Forall (fun line => 0 < length line /\
                      Forall (fun c => Uart.is_eol c = false) line) lines ->
  forall st : Uart.RxState,
    Uart.wf st ->
    Uart.g_rx_index st = 0%Z ->
    exists st',
      Uart.rx_chars
        (concat (map (fun line => line ++ [Uart.CR; Uart.LF]) lines)) st
      = Some (st', map (fun line => Uart.until_nul (take 63 line)) lines) /\
      Uart.wf st' /\ Uart.g_rx_index st' = 0%Z /\
      (Forall (fun line => length line <= 63 /\
                           Forall (fun c => c <> Uart.NUL) line) lines ->
       map (fun line => Uart.until_nul (take 63 line)) lines = lines).
Proof.
  induction 1 as [|line rest [Hne Hchars] Hrest IH]; intros st Hwf Hidx.
  - exists st. repeat split; try apply Hwf; assumption.
  - destruct (rx_one_line line [Uart.LF] Uart.CR st Hwf Hidx Hne Hchars)
      as (st1 & Hrun1 & Hwf1 & Hidx1); [repeat constructor|].
    destruct (IH st1 Hwf1 Hidx1) as (st2 & Hrun2 & Hwf2 & Hidx2 & Hplain).
    exists st2. cbn [map concat]. rewrite rx_chars_app, Hrun1, Hrun2.
    split; [reflexivity|]. split; [exact Hwf2|]. split; [exact Hidx2|].
    intros Hall. apply Forall_cons in Hall as [[Hlen Hnul] Hall].
    cbn [map]. rewrite (Hplain Hall), take_ge by exact Hlen.
    now rewrite until_nul_plain.
Qed.

(** * Command processing of the two test firmwares *)

Module CStr.
(** [strncmp(a, b, n) == 0] on C strings, given without their NUL. *)
Fixpoint strncmp_eq (a b : list ascii) (n : nat) {struct n} : bool :=
  match n with
  | O => true
  | S n' =>
      match a, b with
      | [], [] => true
      | x :: a', y :: b' => if Ascii.eqb x y then strncmp_eq a' b' n' else false
      | _, _ => false
      end
  end.

(** [strcmp(a, b) == 0] *)
Fixpoint strcmp_eq (a b : list ascii) : bool :=
  match a, b with
  | [], [] => true
  | x :: a', y :: b' => if Ascii.eqb x y then strcmp_eq a' b' else false
  | _, _ => false
  end.

(** The blanks before the argument are skipped: [while] the character at
    [arg] is a blank, [arg++]. *)
Fixpoint skip_spaces (arg : list ascii) : list ascii :=
  match arg with
  | c :: rest => if Ascii.eqb c " "%char then skip_spaces rest else arg
  | [] => []
  end.

(** What [snprintf] leaves in a buffer of [size] bytes: at most [size - 1]
    characters of the formatted text. *)
Definition snprintf (size : nat) (text : list ascii) : list ascii :=
  take (size - 1) text.

Definition of_string (s : string) : list ascii := String.list_ascii_of_string s.

Definition CRLF : list ascii := [Uart.CR; Uart.LF].
End CStr.

Module WireCheck.
(** The [cmd] column of [COMMANDS]; entry [i] has the handler [func i]. *)
Definition COMMANDS : list (list ascii) :=
  map CStr.of_string
    ["VERSION"; "GET_IMU_ID"; "GET_IMU"; "TEST_MOTOR"; "GET_BATTERY";
     "GET_ESP32_STATUS"; "WIRE_CHECK"]%string.

(** What the loop of [process_command] settles on. *)
Inductive Action : Type :=
  | RunHandler (i : nat)              (* [COMMANDS[i].func()] *)
  | RunEcho (arg : list ascii)        (* [cmd_echo(arg)] *)
  | NoResult.                         (* [result] stays [NULL] *)

(** The loop of [process_command] from entry [i] on. *)
Fixpoint lookup_command (cmd : list ascii) (table : list (list ascii)) (i : nat)
    : Action :=
  match table with
  | [] => NoResult
  | name :: rest =>
      if CStr.strncmp_eq cmd name (length name) then
        let arg := CStr.skip_spaces (drop (length name) cmd) in
        if CStr.strcmp_eq name (CStr.of_string "ECHO") then RunEcho arg
        else RunHandler i
      else lookup_command cmd rest (S i)
  end.

(** [const char *cmd_echo(const char *arg)] *)
Definition cmd_echo (arg : list ascii) : list ascii :=
  CStr.snprintf 128 (CStr.of_string "OK[ECHO=" ++ arg ++ CStr.of_string "]").

(** [void process_command(const char *cmd)]: the bytes sent to the UART.
    [func i] is the string handler [i] returns; the handlers read the
    hardware. *)
Definition process_command (func : nat -> list ascii) (cmd : list ascii)
    : list ascii :=
  match lookup_command cmd COMMANDS 0 with
  | RunHandler i => CStr.snprintf 128 (func i ++ CStr.CRLF)
  | RunEcho arg => CStr.snprintf 128 (cmd_echo arg ++ CStr.CRLF)
  | NoResult =>
      CStr.snprintf 128
        (CStr.of_string "FAIL[UNKNOWN_CMD:" ++ cmd ++ CStr.of_string "]"
         ++ CStr.CRLF)
  end.
End WireCheck.

Module SelfTest.
(** The branches of the [strcmp] chain in [UART_ProcessCommand]. *)
Inductive Request : Type :=
  | ReqSelfTest | ReqGetResult | ReqVersion | ReqReset | ReqUnknown.

Definition parse (cmd : list ascii) : Request :=
  if CStr.strcmp_eq cmd (CStr.of_string "SELF_TEST") then ReqSelfTest
  else if CStr.strcmp_eq cmd (CStr.of_string "GET_RESULT") then ReqGetResult
  else if CStr.strcmp_eq cmd (CStr.of_string "VERSION") then ReqVersion
  else if CStr.strcmp_eq cmd (CStr.of_string "RESET") then ReqReset
  else ReqUnknown.

(** [void UART_SendResponse(const char *status, const char *data)]: the
    bytes sent. *)
Definition UART_SendResponse (status data : list ascii) : list ascii :=
  CStr.snprintf 128
    (status ++ CStr.of_string "[" ++ data ++ CStr.of_string "]" ++ CStr.CRLF).

(** The answer to a command line.  [report_now] and [report_last] are the
    texts [snprintf] formats from the results of a fresh run and of the
    stored run. *)
Definition reply (report_now report_last : list ascii) (cmd : list ascii)
    : list ascii :=
  match parse cmd with
  | ReqSelfTest => UART_SendResponse (CStr.of_string "OK") report_now
  | ReqGetResult => UART_SendResponse (CStr.of_string "OK") report_last
  | ReqVersion =>
      UART_SendResponse (CStr.of_string "OK") (CStr.of_string "v1.0.0-20260218")
  | ReqReset =>
      UART_SendResponse (CStr.of_string "OK") (CStr.of_string "resetting")
  | ReqUnknown =>
      UART_SendResponse (CStr.of_string "FAIL")
        (CStr.of_string "unknown command")
  end.
End SelfTest.

Lemma strncmp_eq_prefix (name : list ascii) :
  forall cmd,
    CStr.strncmp_eq cmd name (length name) = true <-> name `prefix_of` cmd.
Proof.
  induction name as [|y name IH]; intros cmd.
  - cbn. split; [intros _; apply prefix_nil|intros _; reflexivity].
  - cbn [length CStr.strncmp_eq]. destruct cmd as [|x cmd].
    + split; [discriminate|]. intros [k Hk]. discriminate.
    + destruct (Ascii.eqb_spec x y) as [->|Hxy].
      * rewrite IH. split; [apply prefix_cons|apply prefix_cons_inv_2].
      * split; [discriminate|]. intros Hp.
        apply prefix_cons_inv_1 in Hp. congruence.
Qed.

Lemma strcmp_eq_iff (a : list ascii) :
  forall b, CStr.strcmp_eq a b = true <-> a = b.
Proof.
  induction a as [|x a IH]; intros [|y b]; cbn; try (split; congruence).
  destruct (Ascii.eqb_spec x y) as [->|Hxy].
  - rewrite IH. split; congruence.
  - split; congruence.
Qed.

(** The loop settles on the first entry whose name the line starts with. *)
Lemma lookup_command_first (cmd : list ascii) (table : list (list ascii)) :
  Forall (fun name => CStr.strcmp_eq name (CStr.of_string "ECHO") = false)
    table ->
  forall i,
    match WireCheck.lookup_command cmd table i with
    | WireCheck.RunHandler j =>
        exists k name,
          j = i + k /\ table !! k = Some name /\ name `prefix_of` cmd /\
          forall k' name', k' < k -> table !! k' = Some name' ->
                           ~ name' `prefix_of` cmd
    | WireCheck.RunEcho _ => False
    | WireCheck.NoResult =>
        Forall (fun name => ~ name `prefix_of` cmd) table
    end.
Proof.
  induction 1 as [|name rest Hecho Hrest IH]; intros i; [constructor|].
  cbn [WireCheck.lookup_command].
  destruct (CStr.strncmp_eq cmd name (length name)) eqn:E.
  - rewrite Hecho. apply strncmp_eq_prefix in E.
    exists 0, name. repeat split; [lia|exact E|]. intros k' name' Hk. lia.
  - assert (Hn : ~ name `prefix_of` cmd).
    { intros Hp. apply strncmp_eq_prefix in Hp. congruence. }
    specialize (IH (S i)).
    destruct (WireCheck.lookup_command cmd rest (S i)) as [j|arg|].
    + destruct IH as (k & name' & -> & Hk & Hp & Hfirst).
      exists (S k), name'. repeat split; [lia|exact Hk|exact Hp|].
      intros [|k'] name'' Hlt Hl; cbn in Hl.
      * injection Hl as <-. exact Hn.
      * apply (Hfirst k' name''); [lia|exact Hl].
    + exact IH.
    + constructor; assumption.
Qed.

(** X23.  [process_command] of the wire-check firmware runs the handler of
    the first table entry whose name the line starts with, whatever follows
    the name; it never calls [cmd_echo]; and it finds no handler exactly when
    the line starts with none of the seven names. *)
Theorem process_command_lookup (cmd : list ascii) :
  match WireCheck.lookup_command cmd WireCheck.COMMANDS 0 with
  | WireCheck.RunHandler i =>
      exists name,
        WireCheck.COMMANDS !! i = Some name /\ name `prefix_of` cmd /\
        forall j name', j < i -> WireCheck.COMMANDS !! j = Some name' ->
                        ~ name' `prefix_of` cmd
  | WireCheck.RunEcho _ => False
  | WireCheck.NoResult =>
      Forall (fun name => ~ name `prefix_of` cmd) WireCheck.COMMANDS
  end.
Proof.
  pose proof (lookup_command_first cmd WireCheck.COMMANDS) as H.
  specialize (H ltac:(repeat constructor) 0).
  destruct (WireCheck.lookup_command cmd WireCheck.COMMANDS 0) as [i|arg|];
    [|exact H|exact H].
  destruct H as (k & name & -> & Hk & Hp & Hfirst).
  exists name. repeat split; assumption.
Qed.

(** X24.  In the wire-check firmware the text after a command name is
    ignored: a line made of the name of table entry [i] and anything else
    runs handler [i].  The one exception is the table order of GET_IMU_ID
    before GET_IMU: a line that starts with GET_IMU_ID runs handler 1. *)
Theorem process_command_trailing (func : nat -> list ascii) (i : nat)
    (name tail : list ascii) :
  WireCheck.COMMANDS !! i = Some name ->
  (WireCheck.lookup_command (name ++ tail) WireCheck.COMMANDS 0
   = WireCheck.RunHandler i /\
   WireCheck.process_command func (name ++ tail)
   = CStr.snprintf 128 (func i ++ CStr.CRLF))
  \/
  (i = 2 /\ CStr.of_string "_ID" `prefix_of` tail /\
   WireCheck.lookup_command (name ++ tail) WireCheck.COMMANDS 0
   = WireCheck.RunHandler 1).
Proof.
  intros Hi. unfold WireCheck.process_command.
  destruct i as [|[|[|[|[|[|[|i]]]]]]]; vm_compute in Hi;
    try discriminate; injection Hi as <-.
  1-2, 4-7: left; split; reflexivity.
  destruct tail as [|c1 [|c2 [|c3 tail]]];
    try (left; split; reflexivity).
  - cbn. destruct (Ascii.eqb_spec c1 "_"%char); left; split; reflexivity.
  - cbn. destruct (Ascii.eqb_spec c1 "_"%char); [|left; split; reflexivity].
    destruct (Ascii.eqb_spec c2 "I"%char); left; split; reflexivity.
  - cbn. destruct (Ascii.eqb_spec c1 "_"%char); [|left; split; reflexivity].
    destruct (Ascii.eqb_spec c2 "I"%char); [|left; split; reflexivity].
    destruct (Ascii.eqb_spec c3 "D"%char); [|left; split; reflexivity].
    subst. right. split; [reflexivity|]. split; [|reflexivity].
    exists tail. reflexivity.
Qed.

(** X25.  A line that starts with none of the seven names is answered
    [FAIL[UNKNOWN_CMD:<line>]] CR LF, in full when the line has at most 107
    characters (the receiver delivers at most 63).  Lines that start with
    ECHO are among them: the table has no ECHO entry. *)
Theorem process_command_unknown (func : nat -> list ascii) :
  (forall cmd : list ascii,
      Forall (fun name => ~ name `prefix_of` cmd) WireCheck.COMMANDS ->
      WireCheck.process_command func cmd
      = CStr.snprintf 128
          (CStr.of_string "FAIL[UNKNOWN_CMD:" ++ cmd ++ CStr.of_string "]"
           ++ CStr.CRLF) /\
      (length cmd <= 107 ->
       WireCheck.process_command func cmd
       = CStr.of_string "FAIL[UNKNOWN_CMD:" ++ cmd ++ CStr.of_string "]"
         ++ CStr.CRLF)) /\
  (forall tail : list ascii,
      WireCheck.process_command func (CStr.of_string "ECHO" ++ tail)
      = CStr.snprintf 128
          (CStr.of_string "FAIL[UNKNOWN_CMD:ECHO" ++ tail ++ CStr.of_string "]"
           ++ CStr.CRLF)).
Proof.
  split.
  - intros cmd Hnone.
    assert (Hp : WireCheck.process_command func cmd
                 = CStr.snprintf 128
                     (CStr.of_string "FAIL[UNKNOWN_CMD:" ++ cmd
                      ++ CStr.of_string "]" ++ CStr.CRLF)).
    { unfold WireCheck.process_command.
      pose proof (lookup_command_first cmd WireCheck.COMMANDS) as H.
      specialize (H ltac:(repeat constructor) 0).
      destruct (WireCheck.lookup_command cmd WireCheck.COMMANDS 0) as [i|arg|];
        [|contradiction|reflexivity].
      destruct H as (k & name & _ & Hk & Hpre & _).
      rewrite Forall_lookup in Hnone. exfalso.
      exact (Hnone k name Hk Hpre). }
    split; [exact Hp|]. intros Hlen. rewrite Hp. unfold CStr.snprintf.
    apply take_ge. rewrite !length_app. cbn. lia.
  - intros tail. reflexivity.
Qed.

(** X26.  The self-test firmware compares whole lines: only SELF_TEST,
    GET_RESULT, VERSION and RESET are commands, any other line is answered
    [FAIL[unknown command]] CR LF, and a command name followed by any
    further character is such a line. *)
Theorem self_test_exact_commands (report_now report_last : list ascii) :
  (forall cmd : list ascii,
      SelfTest.parse cmd = SelfTest.ReqUnknown <->
      ~ In cmd (map CStr.of_string
                  ["SELF_TEST"; "GET_RESULT"; "VERSION"; "RESET"]%string)) /\
  (forall cmd : list ascii,
      SelfTest.parse cmd = SelfTest.ReqUnknown ->
      SelfTest.reply report_now report_last cmd
      = CStr.of_string "FAIL[unknown command]" ++ CStr.CRLF) /\
  (forall (name : list ascii) (c : ascii) (tail : list ascii),
      In name (map CStr.of_string
                 ["SELF_TEST"; "GET_RESULT"; "VERSION"; "RESET"]%string) ->
      SelfTest.parse (name ++ c :: tail) = SelfTest.ReqUnknown).
Proof.
  split; [|split].
  - intros cmd. unfold SelfTest.parse. cbn [map In].
    destruct (CStr.strcmp_eq cmd (CStr.of_string "SELF_TEST")) eqn:E1;
      [apply strcmp_eq_iff in E1; split; [discriminate|];
       intros Hn; exfalso; apply Hn; subst cmd;
       repeat (first [left; reflexivity | right])|].
    destruct (CStr.strcmp_eq cmd (CStr.of_string "GET_RESULT")) eqn:E2;
      [apply strcmp_eq_iff in E2; split; [discriminate|];
       intros Hn; exfalso; apply Hn; subst cmd;
       repeat (first [left; reflexivity | right])|].
    destruct (CStr.strcmp_eq cmd (CStr.of_string "VERSION")) eqn:E3;
      [apply strcmp_eq_iff in E3; split; [discriminate|];
       intros Hn; exfalso; apply Hn; subst cmd;
       repeat (first [left; reflexivity | right])|].
    destruct (CStr.strcmp_eq cmd (CStr.of_string "RESET")) eqn:E4;
      [apply strcmp_eq_iff in E4; split; [discriminate|];
       intros Hn; exfalso; apply Hn; subst cmd;
       repeat (first [left; reflexivity | right])|].
    split; [|reflexivity]. intros _ [H|[H|[H|[H|[]]]]]; symmetry in H;
      apply strcmp_eq_iff in H; congruence.
  - intros cmd Hp. unfold SelfTest.reply. rewrite Hp. reflexivity.
  - intros name c tail [<-|[<-|[<-|[<-|[]]]]]; reflexivity.
Qed.

(** * Sensor values of the two test firmwares *)

Module Imu.
(** Conversion of an [int] to [int16_t]: reduction modulo 2^16 into
    [-32768, 32767], as the ARM compilers define it. *)
Definition to_int16 (z : Z) : Z := ((z + 32768) mod 65536 - 32768)%Z.

(** [(data[k] << 8) | data[k + 1]], stored in an [int16_t]. *)
Definition be16 (hi lo : Z) : Z := to_int16 (Z.lor (Z.shiftl hi 8) lo).

(** The six values [cmd_get_imu] prints, from the 14 bytes read at register
    0x3B; [data k] is [data[k]]. *)
Definition cmd_get_imu_values (data : nat -> Z) : Z * Z * Z * Z * Z * Z :=
  (be16 (data 0) (data 1), be16 (data 2) (data 3), be16 (data 4) (data 5),
   be16 (data 8) (data 9), be16 (data 10) (data 11), be16 (data 12) (data 13)).
End Imu.

Module Battery.
(** [3.3f], [4095.0f], [2.0f], [3.0f] and [4.3f] *)
Definition c3_3 : spec_float :=
  Eval vm_compute in B32.div (B32.of_Z 33) (B32.of_Z 10).
Definition c4095 : spec_float := Eval vm_compute in B32.of_Z 4095.
Definition c2 : spec_float := Eval vm_compute in B32.of_Z 2.
Definition c3 : spec_float := Eval vm_compute in B32.of_Z 3.
Definition c4_3 : spec_float :=
  Eval vm_compute in B32.div (B32.of_Z 43) (B32.of_Z 10).

(** [(adc_value * 3.3f / 4095.0f) * 2.0f], in [float]: the formula of
    [SelfTest_Battery], [cmd_get_battery] and [cmd_wire_check_all]. *)
Definition voltage_of (adc_value : Z) : spec_float :=
  B32.mul (B32.div (B32.mul (B32.of_Z adc_value) c3_3) c4095) c2.

(** The sampling loop of [SelfTest_Battery]: ten readings added up in a
    [uint32_t], then [adc_value /= 10].  [reading i] is what
    [HAL_ADC_GetValue] returns in iteration [i]. *)
Definition sum_readings (reading : nat -> Z) : Z :=
  fold_left (fun acc i => ((acc + reading i) mod 4294967296)%Z) (seq 0 10) 0%Z.

Definition average (reading : nat -> Z) : Z := (sum_readings reading / 10)%Z.

(** [*voltage >= 3.0f && *voltage <= 4.3f] *)
Definition in_window (voltage : spec_float) : bool :=
  SFleb c3 voltage && SFleb voltage c4_3.

(** [uint8_t SelfTest_Battery(float *voltage)]: the voltage stored and the
    value returned. *)
Definition SelfTest_Battery (reading : nat -> Z) : spec_float * Z :=
  let voltage := voltage_of (average reading) in
  (voltage, if in_window voltage then 1%Z else 0%Z).
End Battery.

Lemma forallb_below (f : nat -> bool) (n : nat) :
  forallb f (seq 0 n) = true -> forall k, k < n -> f k = true.
Proof.
  intros H k Hk. rewrite forallb_forall in H. apply H, in_seq. lia.
Qed.

Lemma be16_table :
  forallb (fun hi => forallb (fun lo =>
    Z.eqb (Imu.be16 (Z.of_nat hi) (Z.of_nat lo))
          (256 * Z.of_nat hi + Z.of_nat lo
           - (if (Z.of_nat hi <? 128)%Z then 0 else 65536))%Z)
    (seq 0 256)) (seq 0 256) = true.
Proof. vm_compute. reflexivity. Qed.

(** X27.  The value [cmd_get_imu] reports for a register pair is the
    big-endian two's-complement reading of its two bytes: [256 hi + lo] when
    the high byte is below 128 and [256 hi + lo - 65536] otherwise, always
    within [-32768, 32767]. *)
Theorem be16_value (hi lo : Z) :
  (0 <= hi <= 255)%Z ->
  (0 <= lo <= 255)%Z ->
  Imu.be16 hi lo
  = (256 * hi + lo - (if (hi <? 128)%Z then 0 else 65536))%Z /\
  (-32768 <= Imu.be16 hi lo <= 32767)%Z.
Proof.
  intros Hhi Hlo.
  pose proof (forallb_below _ _ be16_table (Z.to_nat hi) ltac:(lia)) as H.
  cbv beta in H.
  pose proof (forallb_below _ _ H (Z.to_nat lo) ltac:(lia)) as H'.
  cbv beta in H'. rewrite !Z2Nat.id in H' by lia.
  apply Z.eqb_eq in H'. split; [exact H'|]. rewrite H'.
  destruct (Z.ltb_spec hi 128); lia.
Qed.

Lemma battery_window_table :
  forallb (fun n =>
    Bool.eqb (Battery.in_window (Battery.voltage_of (Z.of_nat n)))
             ((1862 <=? Z.of_nat n)%Z && (Z.of_nat n <=? 2667)%Z))
    (seq 0 4096) = true.
Proof. vm_compute. reflexivity. Qed.

Lemma battery_window (adc : Z) :
  (0 <= adc <= 4095)%Z ->
  Battery.in_window (Battery.voltage_of adc)
  = ((1862 <=? adc)%Z && (adc <=? 2667)%Z).
Proof.
  intros Hadc.
  pose proof (forallb_below _ _ battery_window_table (Z.to_nat adc)
                ltac:(lia)) as H.
  cbv beta in H. rewrite Z2Nat.id in H by lia.
  apply Bool.eqb_prop in H. exact H.
Qed.

Lemma sum_readings_exact (reading : nat -> Z) (lo hi : Z) :
  (0 <= lo)%Z -> (hi <= 4095)%Z ->
  (forall i, i < 10 -> (lo <= reading i <= hi)%Z) ->
  Battery.sum_readings reading
  = (reading 0%nat + reading 1%nat + reading 2%nat + reading 3%nat + reading 4%nat
     + reading 5%nat + reading 6%nat + reading 7%nat + reading 8%nat + reading 9%nat)%Z /\
  (10 * lo <= Battery.sum_readings reading <= 10 * hi)%Z.
Proof.
  intros Hlo Hhi Hr. unfold Battery.sum_readings. cbn [seq fold_left].
  pose proof (Hr 0 ltac:(lia)). pose proof (Hr 1 ltac:(lia)).
  pose proof (Hr 2 ltac:(lia)). pose proof (Hr 3 ltac:(lia)).
  pose proof (Hr 4 ltac:(lia)). pose proof (Hr 5 ltac:(lia)).
  pose proof (Hr 6 ltac:(lia)). pose proof (Hr 7 ltac:(lia)).
  pose proof (Hr 8 ltac:(lia)). pose proof (Hr 9 ltac:(lia)).
  rewrite !Z.add_0_l.
  rewrite (Z.mod_small (reading 0%nat)) by lia.
  rewrite (Z.mod_small (_ + reading 1%nat)) by lia.
  rewrite (Z.mod_small (_ + reading 2%nat)) by lia.
  rewrite (Z.mod_small (_ + reading 3%nat)) by lia.
  rewrite (Z.mod_small (_ + reading 4%nat)) by lia.
  rewrite (Z.mod_small (_ + reading 5%nat)) by lia.
  rewrite (Z.mod_small (_ + reading 6%nat)) by lia.
  rewrite (Z.mod_small (_ + reading 7%nat)) by lia.
  rewrite (Z.mod_small (_ + reading 8%nat)) by lia.
  rewrite (Z.mod_small (_ + reading 9%nat)) by lia.
  split; [reflexivity|lia].
Qed.

(** X28.  With 12-bit readings the sum in [SelfTest_Battery] does not wrap
    and the average lies between the smallest and the largest reading. *)
Theorem battery_average_bounds (reading : nat -> Z) (lo hi : Z) :
  (0 <= lo)%Z ->
  (hi <= 4095)%Z ->
  (forall i, i < 10 -> (lo <= reading i <= hi)%Z) ->
  Battery.sum_readings reading
  = (reading 0%nat + reading 1%nat + reading 2%nat + reading 3%nat + reading 4%nat
     + reading 5%nat + reading 6%nat + reading 7%nat + reading 8%nat + reading 9%nat)%Z /\
  (lo <= Battery.average reading <= hi)%Z.
Proof.
  intros Hlo Hhi Hr.
  destruct (sum_readings_exact reading lo hi Hlo Hhi Hr) as [Hs Hb].
  split; [exact Hs|]. unfold Battery.average.
  split; [apply Z.div_le_lower_bound; lia|].
  apply Z.div_le_upper_bound; lia.
Qed.

(** X29.  In binary32, with 12-bit readings, [SelfTest_Battery] returns 1
    exactly when the average count is between 1862 and 2667, that is when
    the ten readings add up to between 18620 and 26679. *)
Theorem SelfTest_Battery_window (reading : nat -> Z) :
  (forall i, i < 10 -> (0 <= reading i <= 4095)%Z) ->
  snd (Battery.SelfTest_Battery reading)
  = (if ((1862 <=? Battery.average reading)%Z
         && (Battery.average reading <=? 2667)%Z) then 1 else 0)%Z /\
  (snd (Battery.SelfTest_Battery reading) = 1%Z <->
   (18620 <= Battery.sum_readings reading <= 26679)%Z).
Proof.
  intros Hr.
  destruct (sum_readings_exact reading 0%Z 4095%Z ltac:(lia) ltac:(lia) Hr)
    as [_ Hb].
  assert (Ha : (0 <= Battery.average reading <= 4095)%Z).
  { unfold Battery.average. split; [apply Z.div_pos; lia|].
    apply Z.div_le_upper_bound; lia. }
  unfold Battery.SelfTest_Battery. cbn [snd].
  rewrite battery_window by exact Ha. split; [reflexivity|].
  unfold Battery.average in *.
  set (q := (Battery.sum_readings reading / 10)%Z) in *.
  pose proof (Z.div_mod (Battery.sum_readings reading) 10 ltac:(lia)) as Hdm.
  pose proof (Z.mod_pos_bound (Battery.sum_readings reading) 10 ltac:(lia)).
  fold q in Hdm.
  destruct (Z.leb_spec 1862 q); destruct (Z.leb_spec q 2667);
    cbn [andb]; split; intros; lia.
Qed.

Lemma battery_monotone_table :
  forallb (fun n =>
    SFleb (Battery.voltage_of (Z.of_nat n)) (Battery.voltage_of (Z.of_nat (S n))))
    (seq 0 4095) = true.
Proof. vm_compute. reflexivity. Qed.

(** X30.  In binary32 the battery voltage computed from a 12-bit count does
    not decrease when the count grows by one; it is +0 at count 0 and
    exactly [3.3f * 2] at count 4095. *)
Theorem battery_voltage_monotone (adc : Z) :
  (0 <= adc < 4095)%Z ->
  SFleb (Battery.voltage_of adc) (Battery.voltage_of (adc + 1)) = true /\
  Battery.voltage_of 0 = S754_zero false /\
  Battery.voltage_of 4095 = B32.mul Battery.c3_3 Battery.c2.
Proof.
  intros Hadc.
  pose proof (forallb_below _ _ battery_monotone_table (Z.to_nat adc)
                ltac:(lia)) as H.
  cbv beta in H. rewrite Nat2Z.inj_succ, Z2Nat.id in H by lia.
  split; [exact H|]. split; vm_compute; reflexivity.
Qed.

(** * The added properties at concrete inputs *)

(** The demo agent standing still, driving backwards, and with the noise
    setting at which the noise scale peaks. *)
Definition demo_halted : AgentConfig R := {| noise := (1 / 10)%R; speed := 0%R |}.
Definition demo_reversed : AgentConfig R :=
  {| noise := (1 / 10)%R; speed := (-1)%R |}.
Definition demo_loud : AgentConfig R := {| noise := 100%R; speed := 1%R |}.

(** [srand] of the sample generator of the C standard: [next = seed]. *)
Definition demo_srand (seed : Z) : rng_state Demo.libc := seed.

(** The receiver after reset: an all-zero buffer and index 0. *)
Definition demo_rx_idle : Uart.RxState :=
  {| Uart.g_rx_buffer := replicate 64 Uart.NUL; Uart.g_rx_index := 0 |}.

(** Ten readings around 3.2 V. *)
Definition demo_readings (i : nat) : Z := (2000 + Z.of_nat i)%Z.

Lemma wf_demo_narrow_boot : wf_state demo_narrow_net demo_narrow_boot.
Proof. split; reflexivity. Qed.

Lemma wf_demo_rx_idle : Uart.wf demo_rx_idle.
Proof. split; [reflexivity|cbn; lia]. Qed.

Lemma demo_libc_range (g : rng_state Demo.libc) :
  (0 <= fst (rand_step Demo.libc g) <= RAND_MAX Demo.libc)%Z.
Proof.
  cbn [rand_step RAND_MAX Demo.libc fst].
  match goal with
  | |- (0 <= ?a mod 32768 <= _)%Z =>
      pose proof (Z.mod_pos_bound a 32768 ltac:(lia))
  end.
  lia.
Qed.

Lemma demo_inputs_sized :
  Forall (fun input : list R => length input = NCA_INPUT_SIZE Demo.net)
    [Demo.input; [3; 4]%R].
Proof. repeat constructor. Qed.

(** X1 on the demo agent: a third input cell changes nothing, a single cell
    is too few. *)
Lemma nca_forward_input_cells_witness :
  nca_forward Demo.net Demo.libc (Demo.input ++ [7%R]) [0; 0]%R (Demo.boot 1)
  = nca_forward Demo.net Demo.libc Demo.input [0; 0]%R (Demo.boot 1) /\
  nca_forward Demo.net Demo.libc [1%R] [0; 0]%R (Demo.boot 1) = None.
Proof.
  split.
  - apply (proj1 (nca_forward_input_cells Demo.net Demo.libc Demo.input
                    [0; 0]%R (Demo.boot 1)) [7%R] eq_refl).
  - apply (proj2 (nca_forward_input_cells Demo.net Demo.libc [1%R]
                    [0; 0]%R (Demo.boot 1))); cbn; lia.
Defined.

(** X2 on the demo agent. *)
Lemma nca_forward_effect_witness :
  exists out s',
    nca_forward Demo.net Demo.libc Demo.input [0; 0]%R (Demo.boot 1)
    = Some (out, s') /\
    hidden s' = map (hidden_val Demo.net Demo.input) (seq 0 3) /\
    output_buf s' = out /\
    rng s' = rng (Demo.boot 1) /\
    rand_calls s' = 0 /\
    wf_state Demo.net s'.
Proof.
  apply (nca_forward_effect Demo.net Demo.libc Demo.input [0; 0]%R
           (Demo.boot 1) (wf_demo_boot 1) eq_refl eq_refl).
Defined.

(** X3 on the halted demo agent. *)
Lemma nca_act_zero_speed_witness :
  exists s',
    nca_act Demo.net demo_halted Demo.libc Demo.input (Demo.boot 1)
    = Some ((0, 0)%R, s').
Proof.
  apply (nca_act_zero_speed Demo.net demo_halted Demo.libc Demo.input
           (Demo.boot 1) (wf_demo_boot 1) eq_refl (le_n 2) eq_refl).
Defined.

Lemma demo_reversed_negative : (speed demo_reversed < 0)%R.
Proof. cbn. lra. Qed.

(** X4 on the reversed demo agent. *)
Lemma nca_act_negative_speed_witness :
  exists l s',
    nca_act_body Demo.net demo_reversed Demo.libc Demo.input (Demo.boot 1)
    = Some (l, s') /\
    nca_act Demo.net demo_reversed Demo.libc Demo.input (Demo.boot 1)
    = Some ((l_dx l, l_dy l), s') /\
    l_dx l = (l_dx0 l / l_magnitude l * speed demo_reversed)%R /\
    l_dy l = (l_dy0 l / l_magnitude l * speed demo_reversed)%R /\
    ((0 < l_magnitude l)%R ->
       (speed demo_reversed / l_magnitude l < 0)%R /\
       l_dx l = (speed demo_reversed / l_magnitude l * l_dx0 l)%R /\
       l_dy l = (speed demo_reversed / l_magnitude l * l_dy0 l)%R /\
       sqrt (l_dx l * l_dx l + l_dy l * l_dy l) = (- speed demo_reversed)%R /\
       (speed demo_reversed < sqrt (l_dx l * l_dx l + l_dy l * l_dy l))%R).
Proof.
  apply (nca_act_negative_speed Demo.net demo_reversed Demo.libc Demo.input
           (Demo.boot 1) (wf_demo_boot 1) eq_refl (le_n 2)
           demo_reversed_negative).
Defined.

(** X5 on the demo agent. *)
Lemma nca_act_axis_bounds_witness :
  exists dx dy s',
    nca_act Demo.net Demo.config Demo.libc Demo.input (Demo.boot 1)
    = Some ((dx, dy), s') /\
    (- speed Demo.config <= dx <= speed Demo.config)%R /\
    (- speed Demo.config <= dy <= speed Demo.config)%R.
Proof.
  apply (nca_act_axis_bounds Demo.net Demo.config Demo.libc Demo.input
           (Demo.boot 1) (wf_demo_boot 1) eq_refl (le_n 2)
           demo_speed_positive).
Defined.

Lemma demo_loud_noise : (0 <= noise demo_loud)%R.
Proof. cbn. lra. Qed.

(** X6 on the loud demo agent, where the scale is at its peak. *)
Lemma nca_act_noise_scale_bounds_witness :
  exists l s',
    nca_act_body Demo.net demo_loud Demo.libc Demo.input (Demo.boot 1)
    = Some (l, s') /\
    (0 <= l_noise_scale l <= 100)%R /\
    l_noise_scale l = (100 * exp (-1))%R.
Proof.
  destruct (nca_act_noise_scale_bounds Demo.net demo_loud Demo.libc
              Demo.input (Demo.boot 1) (wf_demo_boot 1) eq_refl (le_n 2)
              demo_loud_noise) as (l & s' & Hbody & Hscale & _ & Hpeak).
  exists l, s'. split; [exact Hbody|]. split; [exact Hscale|].
  exact (Hpeak eq_refl).
Defined.

Lemma demo_config_noise : (0 <= noise Demo.config)%R.
Proof. cbn. lra. Qed.

(** X7 on the demo agent with the sample generator of the C standard. *)
Lemma nca_act_perturbation_witness :
  exists l s',
    nca_act_body Demo.net Demo.config Demo.libc Demo.input (Demo.boot 1)
    = Some (l, s') /\
    (Rabs (l_dx0 l - output_val Demo.net Demo.input 0 * speed Demo.config)
     <= l_noise_scale l / 2)%R /\
    (Rabs (l_dy0 l - output_val Demo.net Demo.input 1 * speed Demo.config)
     <= l_noise_scale l / 2 <= noise Demo.config / 2)%R.
Proof.
  apply (nca_act_perturbation Demo.net Demo.config Demo.libc Demo.input
           (Demo.boot 1) (wf_demo_boot 1) eq_refl (le_n 2)
           demo_config_noise eq_refl demo_libc_range).
Defined.

(** X8 on the demo agent. *)
Lemma nca_forward_zero_input_witness :
  exists s',
    nca_forward Demo.net Demo.libc (replicate 2 0%R) [0; 0]%R (Demo.boot 1)
    = Some (map (fun k =>
                   tanh (sum_from (b2 Demo.net k)
                           (fun j => (tanh (b1 Demo.net j) * w2 Demo.net j k)%R)
                           3))
                (seq 0 2), s').
Proof.
  apply (nca_forward_zero_input Demo.net Demo.libc [0; 0]%R (Demo.boot 1)
           (wf_demo_boot 1) eq_refl).
Defined.

(** X9 on the demo agent and on the agent with a single output. *)
Lemma nca_act_output_cells_witness :
  (exists cmd s',
      nca_act Demo.net Demo.config Demo.libc Demo.input (Demo.boot 1)
      = Some (cmd, s')) /\
  nca_act demo_narrow_net Demo.config Demo.libc Demo.input demo_narrow_boot
  = None.
Proof.
  split.
  - apply (proj1 (nca_act_output_cells Demo.net Demo.config Demo.libc
                    Demo.input (Demo.boot 1) (wf_demo_boot 1) eq_refl)
             (le_n 2)).
  - apply (proj2 (nca_act_output_cells demo_narrow_net Demo.config Demo.libc
                    Demo.input demo_narrow_boot wf_demo_narrow_boot eq_refl)
             (le_n 2)).
Defined.

(** X11 on two ticks of the demo agent. *)
Lemma run_ticks_draws_witness :
  exists ls s',
    run_ticks Demo.net Demo.config Demo.libc [Demo.input; [3; 4]%R]
      (Demo.boot 1) = Some (ls, s') /\
    length ls = 2 /\
    rand_calls s' = 4 /\
    wf_state Demo.net s' /\
    hidden s' = map (hidden_val Demo.net [3; 4]%R) (seq 0 3) /\
    output_buf s' = forward Demo.net [3; 4]%R.
Proof.
  destruct (run_ticks_draws Demo.net Demo.config Demo.libc
              [Demo.input; [3; 4]%R] (Demo.boot 1) (wf_demo_boot 1)
              demo_inputs_sized (le_n 2))
    as (ls & s' & Hrun & Hlen & Hcalls & Hwf & Hlast).
  exists ls, s'. split; [exact Hrun|]. split; [exact Hlen|].
  split; [exact Hcalls|]. split; [exact Hwf|].
  exact (Hlast [3; 4]%R eq_refl).
Defined.

(** X12 on the demo agent, started from two different generator states. *)
Lemma nca_init_reproducible_witness :
  exists ls s1' s2',
    (nca_init Demo.libc demo_srand 42 ;;;
     run_ticks Demo.net Demo.config Demo.libc [Demo.input; [3; 4]%R])
      (Demo.boot 1) = Some (ls, s1') /\
    (nca_init Demo.libc demo_srand 42 ;;;
     run_ticks Demo.net Demo.config Demo.libc [Demo.input; [3; 4]%R])
      (Demo.boot 2) = Some (ls, s2') /\
    rng s1' = rng s2'.
Proof.
  apply (nca_init_reproducible Demo.net Demo.config Demo.libc demo_srand 42
           [Demo.input; [3; 4]%R] (Demo.boot 1) (Demo.boot 2)
           (wf_demo_boot 1) (wf_demo_boot 2) demo_inputs_sized (le_n 2)).
Defined.

(** X13 on a three-entry array: a window of two, a window of four, and a
    negative count. *)
Lemma nca_get_neighbor_count_window_witness :
  nca_get_neighbor_count [1; 5; 2]%R 2 3%R
  = Some (Z.of_nat (length (List.filter (fun d => f_lt d 3%R)
                              (take 2 [1; 5; 2]%R)))) /\
  nca_get_neighbor_count [1; 5; 2]%R 4 3%R = None /\
  nca_get_neighbor_count [1; 5; 2]%R (-1) 3%R = Some 0%Z.
Proof.
  split; [|split].
  - apply (proj1 (nca_get_neighbor_count_window [1; 5; 2]%R 2 3%R)).
    cbn. lia.
  - apply (proj1 (proj2 (nca_get_neighbor_count_window [1; 5; 2]%R 4 3%R))).
    cbn. lia.
  - apply (proj2 (proj2 (nca_get_neighbor_count_window [1; 5; 2]%R (-1) 3%R))).
    lia.
Defined.

(** X15 on a three-entry array, thresholds 2 and 3. *)
Lemma nca_get_neighbor_count_threshold_witness :
  exists c1 c2,
    nca_get_neighbor_count [1; 5; 2]%R 3 2%R = Some c1 /\
    nca_get_neighbor_count [1; 5; 2]%R 3 3%R = Some c2 /\
    (0 <= c1 <= c2)%Z /\ (c2 <= 3)%Z.
Proof.
  apply (nca_get_neighbor_count_threshold [1; 5; 2]%R 2%R 3%R). lra.
Defined.

(** X17 on a three-entry array. *)
Lemma nca_get_neighbor_count_rssi_witness :
  nca_get_neighbor_count [1; 5; 2]%R 3 3%R
  = Some (Z.of_nat (length (List.filter
                              (fun d => f_lt 0%R (nca_rssi d 3%R))
                              [1; 5; 2]%R))).
Proof.
  apply (nca_get_neighbor_count_rssi [1; 5; 2]%R 3%R). lra.
Defined.

(** X18: 5 of 10 metres is 500 of 1000 centimetres. *)
Lemma nca_rssi_scale_witness :
  nca_rssi (100 * 5)%R (100 * 10)%R = nca_rssi 5%R 10%R.
Proof.
  apply (nca_rssi_scale 100%R 5%R 10%R); lra.
Defined.

(** X19 at a maximum distance of 10. *)
Lemma nca_rssi_profile_witness :
  nca_rssi 0%R 10%R = 1%R /\
  (nca_rssi 7%R 10%R < nca_rssi 5%R 10%R)%R /\
  nca_rssi 10%R 10%R = 0%R.
Proof.
  destruct (nca_rssi_profile 10%R ltac:(lra)) as (H0 & Hdec & Hzero).
  split; [exact H0|]. split; [apply Hdec; lra|apply Hzero; lra].
Defined.

(** X20 at the binary32 value 3. *)
Lemma nca_rssi_nan_witness :
  nca_rssi S754_nan (B32.of_Z 3) = S754_nan /\
  nca_rssi (B32.of_Z 3) S754_nan = S754_nan /\
  nca_rssi (S754_infinity false) (B32.of_Z 3) = S754_zero false.
Proof.
  destruct (nca_rssi_nan (B32.of_Z 3)) as (H1 & H2 & H3).
  split; [exact H1|]. split; [exact H2|exact (H3 eq_refl)].
Defined.

(** X21 on the bytes of a line without its line feed. *)
Lemma rx_chars_in_bounds_witness :
  exists st' cmds,
    Uart.rx_chars (CStr.of_string "VERSION" ++ [Uart.CR]) demo_rx_idle
    = Some (st', cmds) /\
    Uart.wf st' /\
    Forall (fun cmd : list ascii => length cmd <= 63) cmds.
Proof.
  apply (rx_chars_in_bounds (CStr.of_string "VERSION" ++ [Uart.CR])
           demo_rx_idle wf_demo_rx_idle).
Defined.

Lemma demo_lines_plain :
  Forall (fun line : list ascii =>
            0 < length line /\
            Forall (fun c : ascii => Uart.is_eol c = false) line)
    [CStr.of_string "VERSION"; CStr.of_string "GET_IMU"].
Proof.
  repeat constructor; cbn; lia.
Qed.

Lemma demo_lines_short :
  Forall (fun line : list ascii =>
            length line <= 63 /\
            Forall (fun c : ascii => c <> Uart.NUL) line)
    [CStr.of_string "VERSION"; CStr.of_string "GET_IMU"].
Proof.
  repeat constructor; cbn; try lia; discriminate.
Qed.

(** X22 on two command lines. *)
Lemma rx_chars_lines_witness :
  exists st',
    Uart.rx_chars
      (concat (map (fun line : list ascii => line ++ [Uart.CR; Uart.LF])
                 [CStr.of_string "VERSION"; CStr.of_string "GET_IMU"]))
      demo_rx_idle
    = Some (st', map (fun line : list ascii => Uart.until_nul (take 63 line))
                   [CStr.of_string "VERSION"; CStr.of_string "GET_IMU"]) /\
    Uart.wf st' /\
    Uart.g_rx_index st' = 0%Z /\
    map (fun line : list ascii => Uart.until_nul (take 63 line))
      [CStr.of_string "VERSION"; CStr.of_string "GET_IMU"]
    = [CStr.of_string "VERSION"; CStr.of_string "GET_IMU"].
Proof.
  destruct (rx_chars_lines
              [CStr.of_string "VERSION"; CStr.of_string "GET_IMU"]
              demo_lines_plain demo_rx_idle wf_demo_rx_idle eq_refl)
    as (st' & Hrun & Hwf & Hidx & Hsame).
  exists st'. split; [exact Hrun|]. split; [exact Hwf|].
  split; [exact Hidx|exact (Hsame demo_lines_short)].
Defined.

(** X24: a battery request followed by more text. *)
Lemma process_command_trailing_witness :
  WireCheck.lookup_command
    (CStr.of_string "GET_BATTERY" ++ CStr.of_string " now")
    WireCheck.COMMANDS 0 = WireCheck.RunHandler 4 /\
  WireCheck.process_command (fun _ => CStr.of_string "OK[3.70V]")
    (CStr.of_string "GET_BATTERY" ++ CStr.of_string " now")
  = CStr.snprintf 128 (CStr.of_string "OK[3.70V]" ++ CStr.CRLF).
Proof.
  destruct (process_command_trailing (fun _ => CStr.of_string "OK[3.70V]") 4
              (CStr.of_string "GET_BATTERY") (CStr.of_string " now") eq_refl)
    as [Hrun | (Hidx & _)].
  - exact Hrun.
  - discriminate Hidx.
Defined.

Lemma demo_hello_unknown :
  Forall (fun name : list ascii => ~ name `prefix_of` CStr.of_string "HELLO")
    WireCheck.COMMANDS.
Proof.
  repeat constructor; intros [k Hk]; discriminate Hk.
Qed.

(** X25 on a line that is no command, and on an ECHO request. *)
Lemma process_command_unknown_witness :
  WireCheck.process_command (fun _ => CStr.of_string "OK[3.70V]")
    (CStr.of_string "HELLO")
  = CStr.of_string "FAIL[UNKNOWN_CMD:" ++ CStr.of_string "HELLO"
    ++ CStr.of_string "]" ++ CStr.CRLF /\
  WireCheck.process_command (fun _ => CStr.of_string "OK[3.70V]")
    (CStr.of_string "ECHO" ++ CStr.of_string " hi")
  = CStr.snprintf 128
      (CStr.of_string "FAIL[UNKNOWN_CMD:ECHO" ++ CStr.of_string " hi"
       ++ CStr.of_string "]" ++ CStr.CRLF).
Proof.
  destruct (process_command_unknown (fun _ => CStr.of_string "OK[3.70V]"))
    as (Hunknown & Hecho).
  split.
  - apply (proj2 (Hunknown (CStr.of_string "HELLO") demo_hello_unknown)).
    cbn. lia.
  - apply (Hecho (CStr.of_string " hi")).
Defined.

(** X26 on a line that is no command, and on a command followed by an
    argument. *)
Lemma self_test_exact_commands_witness :
  SelfTest.reply (CStr.of_string "now") (CStr.of_string "last")
    (CStr.of_string "HELLO")
  = CStr.of_string "FAIL[unknown command]" ++ CStr.CRLF /\
  SelfTest.parse (CStr.of_string "VERSION" ++ " "%char :: CStr.of_string "x")
  = SelfTest.ReqUnknown.
Proof.
  destruct (self_test_exact_commands (CStr.of_string "now")
              (CStr.of_string "last")) as (_ & Hreply & Hextra).
  split.
  - apply (Hreply (CStr.of_string "HELLO") eq_refl).
  - apply (Hextra (CStr.of_string "VERSION") " "%char (CStr.of_string "x")).
    right. right. left. reflexivity.
Defined.

(** X27 on the byte pair FF FE. *)
Lemma be16_value_witness :
  Imu.be16 255 254 = (-2)%Z /\ (-32768 <= Imu.be16 255 254 <= 32767)%Z.
Proof.
  apply (be16_value 255 254); lia.
Defined.

Lemma demo_readings_range (i : nat) :
  i < 10 -> (2000 <= demo_readings i <= 2009)%Z.
Proof. unfold demo_readings. lia. Qed.

Lemma demo_readings_12bit (i : nat) :
  i < 10 -> (0 <= demo_readings i <= 4095)%Z.
Proof. unfold demo_readings. lia. Qed.

(** X28 on ten readings from 2000 to 2009. *)
Lemma battery_average_bounds_witness :
  Battery.sum_readings demo_readings
  = (demo_readings 0 + demo_readings 1 + demo_readings 2 + demo_readings 3
     + demo_readings 4 + demo_readings 5 + demo_readings 6 + demo_readings 7
     + demo_readings 8 + demo_readings 9)%Z /\
  (2000 <= Battery.average demo_readings <= 2009)%Z.
Proof.
  apply (battery_average_bounds demo_readings 2000 2009); try lia.
  exact demo_readings_range.
Defined.

(** X29 on the same readings. *)
Lemma SelfTest_Battery_window_witness :
  snd (Battery.SelfTest_Battery demo_readings)
  = (if ((1862 <=? Battery.average demo_readings)%Z
         && (Battery.average demo_readings <=? 2667)%Z) then 1 else 0)%Z /\
  (snd (Battery.SelfTest_Battery demo_readings) = 1%Z <->
   (18620 <= Battery.sum_readings demo_readings <= 26679)%Z).
Proof.
  apply (SelfTest_Battery_window demo_readings demo_readings_12bit).
Defined.

(** X30 at the count 2000. *)
Lemma battery_voltage_monotone_witness :
  SFleb (Battery.voltage_of 2000) (Battery.voltage_of 2001) = true /\
  Battery.voltage_of 0 = S754_zero false /\
  Battery.voltage_of 4095 = B32.mul Battery.c3_3 Battery.c2.
Proof.
  apply (battery_voltage_monotone 2000). lia.
Defined.
